(** * mongo-perf-lab: plan analysis, execution statistics and chunked parallel reads

    A shallow embedding of the read-strategy benchmark of [mongo-perf-lab/app]:
    - [analyzer.go]: [PrintExplainResults], [PrintMetrics], [ExecutionStats],
      [QueryMetrics];
    - [read_bad.go], [read_v1.go], [read_v2.go], [read_v3.go], [read_v5.go]:
      the single-threaded read loops and the statistics parsing they share;
    - [read_v4.go]: the parallel chunked aggregation (worker goroutines, the
      wait group and the atomic counter);
    - [ExplainQuery], the stage checks of [read_v3] and [read_v5], the index
      listing of [create_index.go], the record generator and the summing
      loops of the CPU benchmarks.

    Go's [int64] and [uint64] are integers of [Z] with the wrap-around written
    out; [float64] is the kernel's binary64; [map[string]interface{}] is a
    [gmap string value] over a universe of dynamically typed values. *)

From Stdlib Require Import ZArith Lia Uint63 PrimFloat.
From stdpp Require Import gmap strings list.

Local Open Scope Z_scope.

(** ** Machine integers *)

Module Int64.

Definition modulus : Z := 2 ^ 64.
Definition min_signed : Z := - 2 ^ 63.
Definition max_signed : Z := 2 ^ 63 - 1.

Definition in_range (z : Z) : Prop := min_signed <= z <= max_signed.
Definition in_urange (z : Z) : Prop := 0 <= z < modulus.

(** The value of an [int64] expression whose exact result is [z]. *)
Definition wrap (z : Z) : Z := (z + 2 ^ 63) mod modulus - 2 ^ 63.

(** The value of a [uint64] expression whose exact result is [z]. *)
Definition uwrap (z : Z) : Z := z mod modulus.

Definition add (a b : Z) : Z := wrap (a + b).
Definition mul (a b : Z) : Z := wrap (a * b).
(** Go's [/] on integers truncates toward zero. *)
Definition quot (a b : Z) : Z := wrap (Z.quot a b).
(** [a - b] on [uint64]. *)
Definition usub (a b : Z) : Z := uwrap (a - b).
(** The conversion [int64(u)] of a [uint64]: the same 64 bits, read signed. *)
Definition of_uint64 (u : Z) : Z := wrap u.

(** The conversion [float64(n)] of an [int64], rounding to nearest even. *)
Definition to_float64 (n : Z) : float :=
  if n <? 0 then
    if n =? min_signed
    then (- (PrimFloat.of_uint63 (Uint63.of_Z (2 ^ 62)) * 2))%float
    else (- PrimFloat.of_uint63 (Uint63.of_Z (- n)))%float
  else PrimFloat.of_uint63 (Uint63.of_Z n).

End Int64.

(** ** Dynamically typed values

    What the driver's decoder puts behind an [interface{}]. A type assertion
    [v.(T)] succeeds only on the constructor of exactly the type [T]:
    [int32(7)] is not an [int64], and a [primitive.M] is not a
    [map[string]interface{}]. *)

#[local] Unset Elimination Schemes.
Inductive value : Type :=
| VNil
| VBool (b : bool)
| VInt32 (n : Z)
| VInt64 (n : Z)
| VFloat64 (f : float)
| VString (s : string)
| VMap (m : gmap string value)      (* map[string]interface{} *)
| VPrimM (m : gmap string value)    (* primitive.M *)
| VSlice (l : list value).          (* []interface{} *)
#[local] Set Elimination Schemes.

(** [m[k]]: indexing a Go map; a missing key yields the nil interface. *)
Definition index (m : gmap string value) (k : string) : value :=
  default VNil (m !! k).

(** [v.(int64)], [v.(string)] and [v.(map[string]interface{})] in their
    comma-ok form: [None] is [ok == false]. *)
Definition asInt64 (v : value) : option Z :=
  match v with VInt64 n => Some n | _ => None end.

Definition asString (v : value) : option string :=
  match v with VString s => Some s | _ => None end.

Definition asMap (v : value) : option (gmap string value) :=
  match v with VMap m => Some m | _ => None end.

(** ** Metrics model (analyzer.go) *)

Record ExecutionStats : Type := mkExecutionStats {
  ExecutionTimeMillis : Z;
  TotalDocsExamined : Z;
  TotalKeysExamined : Z;
  NReturned : Z;
  ExecutionStages : value
}.

(** [&ExecutionStats{}]: every field at its zero value. *)
Definition zeroStats : ExecutionStats := mkExecutionStats 0 0 0 0 VNil.

(** [Stats] is the field [ExecutionStats *ExecutionStats]; [None] is nil.
    [QueryPlan] is never assigned by any strategy and is left out. *)
Record QueryMetrics : Type := mkQueryMetrics {
  Duration : Z;
  RecordsRead : Z;
  MemoryUsed : Z;
  Stats : option ExecutionStats
}.

(** ** Log lines

    Each constructor is one [Println]/[Printf] call of the analyzer or of a
    strategy. The [logger != nil] and [else] branches of the source print the
    same text (to the logger or to standard output), so a line does not
    record the sink. *)

Inductive Line : Type :=
| ExplainHeader (version : string)
| StatsHeader
| StatsExecTime (v : value)
| StatsDocsExamined (v : value)
| StatsKeysExamined (v : value)
| StatsReturned (v : value)
| WarnSlowQuery
| WarnOverExamined (ratio : Z)
| PlanHeader
| PlanStage (stage : string)
| WarnCollScan
| WarnCollScanDetail
| OkIndexScan
| IndexUsed (indexName : string)
| OkFetch
| JsonHeader
| JsonDump (doc : gmap string value)
| BlankLine
| Rule
| MetricsHeader (version : string)
| MetricsDuration (d : Z)
| MetricsRecords (n : Z)
| MetricsMemoryMB (mb : float)
| MongoStatsHeader
| MongoExecTime (ms : Z)
| MongoDocsExamined (n : Z)
| MongoKeysExamined (n : Z)
| MongoReturned (n : Z)
| EfficiencyRatio (percent : float)
| WarnLowEfficiency
| WorkerRequestError (workerID : nat) (e : string)
| WorkerDecodeError (workerID : nat) (e : string)
| WorkerCursorError (workerID : nat) (e : string)
| WorkerDone (workerID : nat) (localCount : Z).

(** ** Plan analyzer (analyzer.go) *)

(** The [if stage == ... else if ...] chain of [PrintExplainResults]. *)
Definition stageLines (winningPlan : gmap string value) (stage : string) : list Line :=
  if String.eqb stage "COLLSCAN" then [WarnCollScan; WarnCollScanDetail]
  else if String.eqb stage "IXSCAN" then
    OkIndexScan ::
    match asString (index winningPlan "indexName") with
    | Some indexName => [IndexUsed indexName]
    | None => []
    end
  else if String.eqb stage "FETCH" then [OkFetch]
  else [].

Definition slowQueryLines (executionStats : gmap string value) : list Line :=
  match asInt64 (index executionStats "executionTimeMillis") with
  | Some execTime => if 100 <? execTime then [WarnSlowQuery] else []
  | None => []
  end.

Definition overExaminedLines (executionStats : gmap string value) : list Line :=
  match asInt64 (index executionStats "totalDocsExamined") with
  | Some totalExamined =>
      match asInt64 (index executionStats "nReturned") with
      | Some nReturned =>
          if 0 <? nReturned then
            if Int64.mul nReturned 2 <? totalExamined
            then [WarnOverExamined (Int64.quot totalExamined nReturned)]
            else []
          else []
      | None => []
      end
  | None => []
  end.

Definition statsSection (explainResult : gmap string value) : list Line :=
  match asMap (index explainResult "executionStats") with
  | Some executionStats =>
      [ StatsHeader;
        StatsExecTime (index executionStats "executionTimeMillis");
        StatsDocsExamined (index executionStats "totalDocsExamined");
        StatsKeysExamined (index executionStats "totalKeysExamined");
        StatsReturned (index executionStats "nReturned") ]
      ++ slowQueryLines executionStats
      ++ overExaminedLines executionStats
  | None => []
  end.

Definition planSection (explainResult : gmap string value) : list Line :=
  match asMap (index explainResult "queryPlanner") with
  | Some queryPlanner =>
      PlanHeader ::
      match asMap (index queryPlanner "winningPlan") with
      | Some winningPlan =>
          match asString (index winningPlan "stage") with
          | Some stage => PlanStage stage :: stageLines winningPlan stage
          | None => []
          end
      | None => []
      end
  | None => []
  end.

Definition PrintExplainResults (explainResult : gmap string value)
    (version : string) : list Line :=
  [ExplainHeader version]
  ++ statsSection explainResult
  ++ planSection explainResult
  ++ [JsonHeader; JsonDump explainResult; BlankLine; Rule].

(** [float64(NReturned) / float64(TotalDocsExamined) * 100]. *)
Definition efficiency (es : ExecutionStats) : float :=
  (Int64.to_float64 (NReturned es) / Int64.to_float64 (TotalDocsExamined es) * 100)%float.

Definition efficiencyLines (es : ExecutionStats) : list Line :=
  if 0 <? TotalDocsExamined es then
    EfficiencyRatio (efficiency es) ::
    (if PrimFloat.ltb (efficiency es) 50 then [WarnLowEfficiency] else [])
  else [].

Definition PrintMetrics (metrics : QueryMetrics) (version : string) : list Line :=
  [ MetricsHeader version;
    MetricsDuration (Duration metrics);
    MetricsRecords (RecordsRead metrics);
    MetricsMemoryMB (Int64.to_float64 (MemoryUsed metrics) / 1048576)%float ]
  ++ match Stats metrics with
     | Some es =>
         [ MongoStatsHeader;
           MongoExecTime (ExecutionTimeMillis es);
           MongoDocsExamined (TotalDocsExamined es);
           MongoKeysExamined (TotalKeysExamined es);
           MongoReturned (NReturned es) ]
         ++ efficiencyLines es
     | None => []
     end
  ++ [Rule].

(** Following the specification (section 3): the enumerated scan
    classification. The source has no such type; it prints one verdict line
    per kind after the stage name, and [scanOfLine] reads the kind back from
    the line, so that [reportedScan] is the classification the output shows. *)
Inductive ScanClassification : Type := FullScan | IndexScan | IndexFetch | Unknown.

Definition scanOfLine (l : Line) : option ScanClassification :=
  match l with
  | WarnCollScan => Some FullScan
  | OkIndexScan => Some IndexScan
  | OkFetch => Some IndexFetch
  | _ => None
  end.

Definition reportedScan (lines : list Line) : ScanClassification :=
  default Unknown (head (omap scanOfLine lines)).

(** Which function prints which line. *)
Definition isStatsWarning (l : Line) : bool :=
  match l with WarnSlowQuery | WarnOverExamined _ => true | _ => false end.

Definition isExplainLine (l : Line) : bool :=
  match l with
  | ExplainHeader _ | StatsHeader | StatsExecTime _ | StatsDocsExamined _
  | StatsKeysExamined _ | StatsReturned _ | WarnSlowQuery | WarnOverExamined _
  | PlanHeader | PlanStage _ | WarnCollScan | WarnCollScanDetail | OkIndexScan
  | IndexUsed _ | OkFetch | JsonHeader | JsonDump _ | BlankLine | Rule => true
  | _ => false
  end.

Definition isMetricsLine (l : Line) : bool :=
  match l with
  | MetricsHeader _ | MetricsDuration _ | MetricsRecords _ | MetricsMemoryMB _
  | MongoStatsHeader | MongoExecTime _ | MongoDocsExamined _
  | MongoKeysExamined _ | MongoReturned _ | EfficiencyRatio _
  | WarnLowEfficiency | Rule => true
  | _ => false
  end.

(** ** Statistics parsing and reporting (the tail of every strategy)

    The block after the read in [read_bad.go], [read_v1.go], [read_v2.go],
    [read_v3.go], [read_v4.go] and [read_v5.go] is the same text: a field of
    [execStats] is copied when, and only when, it asserts to [int64], and the
    [ExecutionStats] struct is allocated by the first field that does. *)

Definition withTotalDocsExamined (es : ExecutionStats) (n : Z) : ExecutionStats :=
  mkExecutionStats (ExecutionTimeMillis es) n (TotalKeysExamined es) (NReturned es)
    (ExecutionStages es).

Definition withTotalKeysExamined (es : ExecutionStats) (n : Z) : ExecutionStats :=
  mkExecutionStats (ExecutionTimeMillis es) (TotalDocsExamined es) n (NReturned es)
    (ExecutionStages es).

Definition withNReturned (es : ExecutionStats) (n : Z) : ExecutionStats :=
  mkExecutionStats (ExecutionTimeMillis es) (TotalDocsExamined es)
    (TotalKeysExamined es) n (ExecutionStages es).

(** [if metrics.ExecutionStats == nil { metrics.ExecutionStats = &ExecutionStats{} }] *)
Definition orZero (es : option ExecutionStats) : ExecutionStats :=
  default zeroStats es.

Definition parseExecutionStats (execStats : gmap string value) : option ExecutionStats :=
  let es1 :=
    match asInt64 (index execStats "executionTimeMillis") with
    | Some execTime => Some (mkExecutionStats execTime 0 0 0 VNil)
    | None => None
    end in
  let es2 :=
    match asInt64 (index execStats "totalDocsExamined") with
    | Some totalDocs => Some (withTotalDocsExamined (orZero es1) totalDocs)
    | None => es1
    end in
  let es3 :=
    match asInt64 (index execStats "totalKeysExamined") with
    | Some totalKeys => Some (withTotalKeysExamined (orZero es2) totalKeys)
    | None => es2
    end in
  match asInt64 (index execStats "nReturned") with
  | Some nReturned => Some (withNReturned (orZero es3) nReturned)
  | None => es3
  end.

(** [execStats[k].(int64)] *)
Definition int64Field (execStats : gmap string value) (k : string) : option Z :=
  asInt64 (index execStats k).

(** [explainResult] is [None] when the explain command failed (a nil map). *)
Definition reportMetrics (explainResult : option (gmap string value))
    (duration recordsRead memoryUsed : Z) (version : string) : list Line :=
  match explainResult with
  | Some result =>
      match asMap (index result "executionStats") with
      | Some execStats =>
          PrintMetrics
            (mkQueryMetrics duration recordsRead memoryUsed
               (parseExecutionStats execStats))
            version
      | None => []
      end
  | None => []
  end.

(** Everything the analyzer prints for one run: [PrintExplainResults] before
    the read (when the explain command succeeded) and [PrintMetrics] after. *)
Definition analyzerLines (explainResult : option (gmap string value))
    (duration recordsRead memoryUsed : Z) (version : string) : list Line :=
  match explainResult with
  | Some result => PrintExplainResults result version
  | None => []
  end
  ++ reportMetrics explainResult duration recordsRead memoryUsed version.

(** [memoryUsed := int64(memAfter.Alloc - memBefore.Alloc)]: the samples are
    [uint64], the subtraction is [uint64] and the conversion reinterprets. *)
Definition memoryUsed (memBefore memAfter : Z) : Z :=
  Int64.of_uint64 (Int64.usub memAfter memBefore).

(** ** Cursors and the single-threaded read loops *)

Definition Err : Type := string.

(** One record a cursor hands out: [cursor.Decode] succeeds or fails on it. *)
Inductive Item : Type :=
| Decodable (doc : gmap string value)
| Corrupt (e : Err).

Definition isDecodable (it : Item) : bool :=
  match it with Decodable _ => true | Corrupt _ => false end.

(** How many of the records decode. *)
Definition decodedCount (items : list Item) : Z :=
  Z.of_nat (length (filter (fun it => isDecodable it = true) items)).

(** What iterating a cursor observes: the records [cursor.Next] yields before
    it returns false, and what [cursor.Err] says afterwards. *)
Record Cursor : Type := mkCursor {
  records : list Item;
  cursorErr : option Err
}.

Inductive RunResult : Type :=
| Panicked (e : Err)
| Completed (recordCount : Z).

(** [for cursor.Next(ctx) { if err := cursor.Decode(&result); err != nil { panic(err) }; recordCount++ }] *)
Fixpoint readLoop (items : list Item) (recordCount : Z) : RunResult :=
  match items with
  | [] => Completed recordCount
  | Decodable _ :: rest => readLoop rest (recordCount + 1)
  | Corrupt e :: _ => Panicked e
  end.

(** The read of [read_v1], [read_v2], [read_v3] and [read_v5]: open, loop,
    then [if err := cursor.Err(); err != nil { panic(err) }]. *)
Definition streamingRead (opened : Err + Cursor) : RunResult :=
  match opened with
  | inl e => Panicked e
  | inr cursor =>
      match readLoop (records cursor) 0 with
      | Panicked e => Panicked e
      | Completed recordCount =>
          match cursorErr cursor with
          | Some e => Panicked e
          | None => Completed recordCount
          end
      end
  end.

(** [cursor.All(ctx, &results)]: the driver decodes every record into the
    slice and returns the first decode error or the cursor's error. *)
Fixpoint cursorAll (items : list Item) (err : option Err) : Err + list (gmap string value) :=
  match items with
  | [] => match err with Some e => inl e | None => inr [] end
  | Decodable doc :: rest =>
      match cursorAll rest err with
      | inl e => inl e
      | inr results => inr (doc :: results)
      end
  | Corrupt e :: _ => inl e
  end.

(** The read of [read_bad]: [len(results)] after [cursor.All]. *)
Definition materializingRead (opened : Err + Cursor) : RunResult :=
  match opened with
  | inl e => Panicked e
  | inr cursor =>
      match cursorAll (records cursor) (cursorErr cursor) with
      | inl e => Panicked e
      | inr results => Completed (Z.of_nat (length results))
      end
  end.

Inductive Strategy : Type := read_bad | read_v1 | read_v2 | read_v3 | read_v5.

Definition runStrategy (s : Strategy) (opened : Err + Cursor) : RunResult :=
  match s with
  | read_bad => materializingRead opened
  | read_v1 | read_v2 | read_v3 | read_v5 => streamingRead opened
  end.

(** ** The parallel chunked aggregation (read_v4.go) *)

(** The two settings of [read_v4.go]; the source fixes them at
    [numWorkers := 10] and [chunkSize := int64(100000)]. *)
Record Config : Type := mkConfig {
  numWorkers : nat;
  chunkSize : Z
}.

Definition read_v4_config : Config := mkConfig 10 100000.

(** What a worker needs from the driver: [col.Aggregate] on the pipeline
    [$match status=PAID; $skip skip; $limit limit; $project]. *)
Record Store : Type := mkStore {
  Aggregate : Z -> Z -> Err + Cursor
}.

(** What one goroutine does, in program order. Only [AAtomicAdd], [AWgDone]
    and [ALog] touch anything shared; [ARequest] and [ANext] act on the
    worker's own cursor. *)
Inductive Action : Type :=
| ARequest (skip limit : Z)
| ANext (item : Item)
| ALog (l : Line)
| AAtomicAdd (n : Z)
| AWgDone.

(** [skip := int64(workerID) * chunkSize] *)
Definition chunkSkip (cfg : Config) (workerID : nat) : Z :=
  Int64.mul (Z.of_nat workerID) (chunkSize cfg).

(** The worker's loop over its cursor: a record that fails to decode is
    logged and skipped ([continue]), the others are counted. Returns the
    actions and the final [localCount]. *)
Fixpoint readChunk (workerID : nat) (items : list Item) (localCount : Z)
    : list Action * Z :=
  match items with
  | [] => ([], localCount)
  | Decodable doc :: rest =>
      let (acts, n) := readChunk workerID rest (localCount + 1) in
      (ANext (Decodable doc) :: acts, n)
  | Corrupt e :: rest =>
      let (acts, n) := readChunk workerID rest localCount in
      (ANext (Corrupt e) :: ALog (WorkerDecodeError workerID e) :: acts, n)
  end.

(** The body of the goroutine, up to its deferred [wg.Done()]. (The deferred
    [cursor.Close] releases the worker's own cursor and is left out.) *)
Definition workerBody (store : Store) (cfg : Config) (totalCount : Z)
    (workerID : nat) : list Action :=
  let skip := chunkSkip cfg workerID in
  if totalCount <=? skip then []
  else
    ARequest skip (chunkSize cfg) ::
    match Aggregate store skip (chunkSize cfg) with
    | inl e => [ALog (WorkerRequestError workerID e)]
    | inr cursor =>
        let (acts, localCount) := readChunk workerID (records cursor) 0 in
        acts
        ++ match cursorErr cursor with
           | Some e => [ALog (WorkerCursorError workerID e)]
           | None => []
           end
        ++ [AAtomicAdd localCount; ALog (WorkerDone workerID localCount)]
    end.

Definition worker (store : Store) (cfg : Config) (totalCount : Z)
    (workerID : nat) : list Action :=
  workerBody store cfg totalCount workerID ++ [AWgDone].

(** Projections of an action list: what it adds to the shared counter, how
    many [wg.Done()] it holds, which records it iterates, what it logs and
    which requests it issues. *)
Definition sumZ {A : Type} (f : A -> Z) (l : list A) : Z :=
  foldr (fun x acc => f x + acc) 0 l.

Definition addOf (a : Action) : Z :=
  match a with AAtomicAdd n => n | _ => 0 end.

Definition doneOf (a : Action) : Z :=
  match a with AWgDone => 1 | _ => 0 end.

Definition contribution (acts : list Action) : Z := sumZ addOf acts.

Definition donesOf (acts : list Action) : Z := sumZ doneOf acts.

Definition readsOf (acts : list Action) : list Item :=
  omap (fun a => match a with ANext item => Some item | _ => None end) acts.

Definition logsOf (acts : list Action) : list Line :=
  omap (fun a => match a with ALog l => Some l | _ => None end) acts.

Definition requestsOf (acts : list Action) : list (Z * Z) :=
  omap (fun a => match a with ARequest s l => Some (s, l) | _ => None end) acts.

(** *** The goroutines under an arbitrary scheduler

    The state of [main] between [var totalRead int64] and the read of
    [totalRead] after [wg.Wait()]. [threads] holds, for each goroutine
    started so far, the actions it has still to perform. *)
Record State : Type := mkState {
  totalRead : Z;
  wg : Z;
  threads : list (list Action);
  returned : option Z;
  logged : list Line
}.

Definition initial : State := mkState 0 0 [] None [].

Inductive Tid : Type :=
| Coordinator
| Worker (workerID : nat).

(** One step of the coordinator: the next iteration of the [for] loop
    ([wg.Add(1); go func(workerID int) {...}(i)]) or, after the loop,
    [wg.Wait()], which is enabled only when the counter is zero. *)
Definition coordinatorStep (store : Store) (cfg : Config) (totalCount : Z)
    (st : State) : option State :=
  match returned st with
  | Some _ => None
  | None =>
      let i := length (threads st) in
      if (i <? numWorkers cfg)%nat then
        Some (mkState (totalRead st) (wg st + 1)
                (threads st ++ [worker store cfg totalCount i])
                None (logged st))
      else if wg st =? 0 then
        Some (mkState (totalRead st) (wg st) (threads st)
                (Some (totalRead st)) (logged st))
      else None
  end.

(** The effect of one action of a goroutine on the shared state. *)
Definition perform (a : Action) (st : State) (threads' : list (list Action)) : State :=
  match a with
  | AAtomicAdd n =>
      mkState (Int64.add (totalRead st) n) (wg st) threads' (returned st) (logged st)
  | AWgDone =>
      mkState (totalRead st) (wg st - 1) threads' (returned st) (logged st)
  | ALog l =>
      mkState (totalRead st) (wg st) threads' (returned st) (logged st ++ [l])
  | ARequest _ _ | ANext _ =>
      mkState (totalRead st) (wg st) threads' (returned st) (logged st)
  end.

Definition workerStep (workerID : nat) (st : State) : option State :=
  match threads st !! workerID with
  | Some (a :: rest) => Some (perform a st (<[workerID := rest]> (threads st)))
  | _ => None
  end.

Definition step (store : Store) (cfg : Config) (totalCount : Z)
    (t : Tid) (st : State) : option State :=
  match t with
  | Coordinator => coordinatorStep store cfg totalCount st
  | Worker workerID => workerStep workerID st
  end.

(** Running a schedule: the scheduler picks, step by step, which thread
    moves; a pick of a thread that cannot move is not a run. *)
Fixpoint run (store : Store) (cfg : Config) (totalCount : Z)
    (schedule : list Tid) (st : State) : option State :=
  match schedule with
  | [] => Some st
  | t :: schedule' =>
      match step store cfg totalCount t st with
      | Some st' => run store cfg totalCount schedule' st'
      | None => None
      end
  end.

(** The sum of what the goroutines [0 .. n-1] add to the counter. *)
Fixpoint sumContributions (store : Store) (cfg : Config) (totalCount : Z)
    (n : nat) : Z :=
  match n with
  | O => 0
  | S k =>
      sumContributions store cfg totalCount k
      + contribution (worker store cfg totalCount k)
  end.

(** The value of [totalRead] once every goroutine has run: the [int64]
    counter after all the atomic adds. *)
Definition runParallel (store : Store) (cfg : Config) (totalCount : Z) : Z :=
  Int64.wrap (sumContributions store cfg totalCount (numWorkers cfg)).

(** Steps still to take: one per action of every goroutine, started or not,
    one per goroutine to start, and one for [wg.Wait()]. *)
Fixpoint unspawnedFrom (store : Store) (cfg : Config) (totalCount : Z)
    (k n : nat) : nat :=
  match n with
  | O => O
  | S n' =>
      (1 + length (worker store cfg totalCount k)
       + unspawnedFrom store cfg totalCount (S k) n')%nat
  end.

Definition sumLen (ths : list (list Action)) : nat :=
  foldr (fun acts acc => (length acts + acc)%nat) O ths.

Definition remaining (store : Store) (cfg : Config) (totalCount : Z)
    (st : State) : nat :=
  ((match returned st with Some _ => 0 | None => 1 end)
   + unspawnedFrom store cfg totalCount (length (threads st))
       (numWorkers cfg - length (threads st))
   + sumLen (threads st))%nat.

(** The scheduler invariant: the wait-group counter is the number of
    [wg.Done()] still to come, the shared counter is what the goroutines
    started so far have added, every goroutine ends with its [wg.Done()],
    and the coordinator only returns past the barrier. *)
Definition invariant (store : Store) (cfg : Config) (totalCount : Z)
    (st : State) : Prop :=
  (length (threads st) <= numWorkers cfg)%nat
  /\ wg st = sumZ donesOf (threads st)
  /\ totalRead st =
     Int64.wrap (sumContributions store cfg totalCount (length (threads st))
                 - sumZ contribution (threads st))
  /\ (forall acts, acts ∈ threads st -> acts = [] \/ last acts = Some AWgDone)
  /\ (forall v, returned st = Some v ->
        v = totalRead st /\ length (threads st) = numWorkers cfg /\ wg st = 0).

(** *** A document store behind the capability

    The MongoDB driver is not part of the repository; what the claims need
    of it is the meaning of the skip and limit stages. *)

(** Modelled from the spec: the Store Access Capability of section 6.
    [aggregate] with a skip and a limit stage yields the matching documents
    at positions [skip, skip+limit) of the store's order. *)
Definition window (docs : list Item) (skip limit : Z) : list Item :=
  take (Z.to_nat limit) (drop (Z.to_nat skip) docs).

(** Modelled from the spec: a store honours skip and limit over the matching
    documents [docs] when every cursor it opens yields a prefix of the
    requested window (all of it, unless the cursor dies on the way). *)
Definition honoursWindow (docs : list Item) (store : Store) : Prop :=
  forall skip limit cursor,
    Aggregate store skip limit = inr cursor ->
    records cursor `prefix_of` window docs skip limit.

(** Modelled from the spec: a store over [docs] with injected faults;
    [refuse skip] fails the request at that offset, [cut skip] kills its
    cursor after some records. *)
Definition collectionStore (docs : list Item) (refuse : Z -> option Err)
    (cut : Z -> option (nat * Err)) : Store :=
  mkStore (fun skip limit =>
    match refuse skip with
    | Some e => inl e
    | None =>
        match cut skip with
        | Some (k, e) => inr (mkCursor (take k (window docs skip limit)) (Some e))
        | None => inr (mkCursor (window docs skip limit) None)
        end
    end).

Definition noFault {A : Type} : Z -> option A := fun _ => None.

(** ** Sample documents *)

Definition sampleStats (execTime totalDocs nReturned : Z) : gmap string value :=
  <["executionTimeMillis" := VInt64 execTime]>
    (<["totalDocsExamined" := VInt64 totalDocs]>
       (<["nReturned" := VInt64 nReturned]> ∅)).

Definition samplePlanner (stage : string) : gmap string value :=
  {["winningPlan" := VMap {["stage" := VString stage]}]}.

Definition sampleExplain (stats : gmap string value) (stage : string)
    : gmap string value :=
  <["executionStats" := VMap stats]> {["queryPlanner" := VMap (samplePlanner stage)]}.

Definition sampleDoc : gmap string value :=
  <["userId" := VInt64 7]> {["status" := VString "PAID"]}.

(** Three matching documents behind a well-behaved store, and one way of
    scheduling the eleven threads of [read_v4] over them. *)
Definition smallStore : Store :=
  collectionStore
    [Decodable sampleDoc; Decodable sampleDoc; Decodable sampleDoc]
    noFault noFault.

Definition smallSchedule : list Tid :=
  [Coordinator; Worker 0; Coordinator; Worker 1; Worker 0]
  ++ replicate 8 Coordinator
  ++ replicate 5 (Worker 0)
  ++ map Worker (seq 2 8)
  ++ [Coordinator].

(** ** The explain command (analyzer.go, [ExplainQuery]) *)

(** The fields of [options.FindOptions] the benchmark sets or reads; a nil
    pointer or nil interface is [None]. *)
Record FindOptions : Type := mkFindOptions {
  Projection : option value;
  Limit : option Z;
  Skip : option Z;
  BatchSize : option Z
}.

(** The values of a [bson.D] command document as [ExplainQuery] builds it. *)
#[local] Unset Elimination Schemes.
Inductive CmdValue : Type :=
| CString (s : string)
| CFilter (m : gmap string value)
| CAny (v : value)
| CInt64 (n : Z)
| CNested (d : list (string * CmdValue)).
#[local] Set Elimination Schemes.

(** [explainCmd]: the find command with the options of [opts[0]], when
    there is one and it is not nil, appended in the order projection, limit,
    skip. *)
Definition explainCmd (colName : string) (filter : gmap string value)
    (opts : list (option FindOptions)) : list (string * CmdValue) :=
  let base := [("find", CString colName); ("filter", CFilter filter)] in
  match opts with
  | Some o :: _ =>
      base
      ++ match Projection o with
         | Some p => [("projection", CAny p)]
         | None => []
         end
      ++ match Limit o with
         | Some n => [("limit", CInt64 n)]
         | None => []
         end
      ++ match Skip o with
         | Some n => [("skip", CInt64 n)]
         | None => []
         end
  | _ => base
  end.

(** [ExplainQuery]: the command is wrapped with the verbosity and sent
    through [RunCommand]; its error, if any, is returned as it is. *)
Definition ExplainQuery
    (RunCommand : list (string * CmdValue) -> Err + gmap string value)
    (colName : string) (filter : gmap string value)
    (opts : list (option FindOptions)) : Err + gmap string value :=
  RunCommand
    [("explain", CNested (explainCmd colName filter opts));
     ("verbosity", CString "executionStats")].

(** The options [read_v2] passes to both [ExplainQuery] and [Find]. *)
Definition read_v2_findOpts (projection : value) : FindOptions :=
  mkFindOptions (Some projection) None None (Some 1000).

(** ** The log and the wait group of a parallel run *)

(** The lines the workers [0 .. n-1] write, worker by worker. *)
Definition workerLogs (store : Store) (cfg : Config) (totalCount : Z)
    (n : nat) : list Line :=
  concat (map (fun i => logsOf (worker store cfg totalCount i)) (seq 0 n)).

(** The lines the started goroutines have still to write. *)
Definition pendingLogs (ths : list (list Action)) : list Line :=
  concat (map logsOf ths).

(** The count a completion line reports; other lines report none. *)
Definition doneCount (l : Line) : Z :=
  match l with WorkerDone _ n => n | _ => 0 end.

(** The goroutines started and not yet finished. *)
Definition isRunning (acts : list Action) : bool :=
  match acts with [] => false | _ :: _ => true end.

Definition unfinished (st : State) : list (list Action) :=
  filter (fun acts => isRunning acts = true) (threads st).

(** Every line written or still to be written is a line of a goroutine
    started so far, and nothing else. *)
Definition logInvariant (store : Store) (cfg : Config) (totalCount : Z)
    (st : State) : Prop :=
  logged st ++ pendingLogs (threads st)
  ≡ₚ workerLogs store cfg totalCount (length (threads st)).

(** A goroutine that has not finished holds exactly one [wg.Done()]. *)
Definition doneOnce (st : State) : Prop :=
  forall acts, acts ∈ threads st -> acts = [] \/ donesOf acts = 1.

(** ** The summing loops (io-vs-cpu-demo/service-go, the Go sum benchmark) *)

(** [for i := start; i <= limit; i++ { sum += i }] on [int64]; [None] when
    the fuel runs out before the loop ends. *)
Fixpoint sumLoop (fuel : nat) (i limit sum : Z) : option Z :=
  match fuel with
  | O => None
  | S fuel' =>
      if i <=? limit
      then sumLoop fuel' (Int64.add i 1) limit (Int64.add sum i)
      else Some sum
  end.

(** [cpuHeavyTask]: the sum of 0 .. 50,000,000. *)
Definition cpuHeavyTask (fuel : nat) : option Z := sumLoop fuel 0 50000000 0.

(** The Go sum benchmark: the sum of 1 .. 100,000,000. *)
Definition sumBenchmark (fuel : nat) : option Z := sumLoop fuel 1 100000000 0.

(** ** The record generator (generator.go) *)

(** The inner loop: [for j := 0; j < batchSize && (i+j) < total; j++],
    appending the document made for position [i+j]. The documents are random;
    [mkDoc] stands for what the generator draws at each position. *)
Fixpoint buildBatch {Doc : Type} (fuel : nat) (mkDoc : Z -> Doc)
    (i j batchSize total : Z) : option (list Doc) :=
  match fuel with
  | O => None
  | S fuel' =>
      if (j <? batchSize) && (Int64.add i j <? total) then
        match buildBatch fuel' mkDoc i (Int64.add j 1) batchSize total with
        | Some docs => Some (mkDoc (Int64.add i j) :: docs)
        | None => None
        end
      else Some []
  end.

Inductive GenResult (Doc : Type) : Type :=
| GenPanicked (e : Err) (inserted : list (list Doc))
| GenDone (inserted : list (list Doc)).

Arguments GenPanicked {Doc} e inserted.
Arguments GenDone {Doc} inserted.

(** The outer loop: [for i := 0; i < total; i += batchSize], one
    [InsertMany] per batch and a panic on its first error. [inserted] holds
    the batches handed to the store so far. *)
Fixpoint generate {Doc : Type} (fuel fuelIn : nat)
    (InsertMany : list Doc -> option Err) (mkDoc : Z -> Doc)
    (i total batchSize : Z) (inserted : list (list Doc))
    : option (GenResult Doc) :=
  match fuel with
  | O => None
  | S fuel' =>
      if i <? total then
        match buildBatch fuelIn mkDoc i 0 batchSize total with
        | None => None
        | Some docs =>
            match InsertMany docs with
            | Some e => Some (GenPanicked e inserted)
            | None =>
                generate fuel' fuelIn InsertMany mkDoc
                  (Int64.add i batchSize) total batchSize (inserted ++ [docs])
            end
        end
      else Some (GenDone inserted)
  end.

(** What holds at the head of the outer loop after [k] batches: the loop
    variable is [k * batchSize], and the batches inserted so far are the
    documents of the positions below it (or below [total]). *)
Definition atBatch {Doc : Type} (mkDoc : Z -> Doc) (total batchSize : Z)
    (k i : Z) (inserted : list (list Doc)) : Prop :=
  0 <= k /\ i = k * batchSize /\ (k = 0 \/ (k - 1) * batchSize < total)
  /\ Z.of_nat (length inserted) = k
  /\ concat inserted = mkDoc <$> seqZ 0 (Z.min i total)
  /\ Forall (fun docs => 0 < Z.of_nat (length docs) <= batchSize) inserted.

(** ** The stage checks of read_v3 and read_v5 *)

Inductive StageLine : Type :=
| IndexInUse
| CollScanFound
| CollScanHint
| StageNumbered (n : Z) (name : string).

(** [read_v3]: the loop over [explainResult["stages"]]. *)
Fixpoint scanStages (stages : list value) : list StageLine :=
  match stages with
  | [] => []
  | stage :: rest =>
      match asMap stage with
      | Some stageMap =>
          match asString (index stageMap "stage") with
          | Some stageName =>
              if String.eqb stageName "IXSCAN" then [IndexInUse]
              else if String.eqb stageName "COLLSCAN" then [CollScanFound; CollScanHint]
              else []
          | None => []
          end
      | None => []
      end
      ++ scanStages rest
  end.

Definition asSlice (v : value) : option (list value) :=
  match v with VSlice l => Some l | _ => None end.

Definition read_v3_stageCheck (explainResult : gmap string value) : list StageLine :=
  match asSlice (index explainResult "stages") with
  | Some stages => scanStages stages
  | None => []
  end.

(** [read_v5]: [for i, stage := range stages], printing [i+1] and the name. *)
Fixpoint listStages (i : Z) (stages : list value) : list StageLine :=
  match stages with
  | [] => []
  | stage :: rest =>
      match asMap stage with
      | Some stageMap =>
          match asString (index stageMap "stage") with
          | Some stageName => [StageNumbered (i + 1) stageName]
          | None => []
          end
      | None => []
      end
      ++ listStages (i + 1) rest
  end.

Definition read_v5_stageList (explainResult : gmap string value) : list StageLine :=
  match asSlice (index explainResult "stages") with
  | Some stages => listStages 0 stages
  | None => []
  end.

(** ** The index listing of create_index *)

(** [for cursor.Next(ctx)]: a record that fails to decode is skipped
    ([continue]); the name is printed when it is a string. *)
Fixpoint listIndexNames (items : list Item) : list string :=
  match items with
  | [] => []
  | Corrupt _ :: rest => listIndexNames rest
  | Decodable idx :: rest =>
      match asString (index idx "name") with
      | Some name => name :: listIndexNames rest
      | None => listIndexNames rest
      end
  end.

(** * Facts *)

(** ** Machine integers *)

Module Int64Facts.

Lemma wrap_in_range z : Int64.in_range (Int64.wrap z).
Proof.
  unfold Int64.in_range, Int64.wrap, Int64.min_signed, Int64.max_signed, Int64.modulus.
  pose proof (Z.mod_pos_bound (z + 2 ^ 63) (2 ^ 64)). lia.
Qed.

Lemma wrap_small z : Int64.in_range z -> Int64.wrap z = z.
Proof.
  unfold Int64.in_range, Int64.wrap, Int64.min_signed, Int64.max_signed, Int64.modulus.
  intros Hz. rewrite Z.mod_small; lia.
Qed.

Lemma wrap_uwrap z : Int64.wrap (Int64.uwrap z) = Int64.wrap z.
Proof.
  unfold Int64.wrap, Int64.uwrap, Int64.modulus.
  rewrite Zplus_mod_idemp_l. reflexivity.
Qed.

(** Adding into an already wrapped counter is adding exactly, then wrapping. *)
Lemma add_wrap_l a b : Int64.add (Int64.wrap a) b = Int64.wrap (a + b).
Proof.
  unfold Int64.add, Int64.wrap, Int64.modulus.
  replace ((a + 2 ^ 63) mod 2 ^ 64 - 2 ^ 63 + b + 2 ^ 63)
    with ((a + 2 ^ 63) mod 2 ^ 64 + b) by lia.
  rewrite Zplus_mod_idemp_l. f_equal. f_equal. lia.
Qed.

Lemma mul_small a b : Int64.in_range (a * b) -> Int64.mul a b = a * b.
Proof. apply wrap_small. Qed.

End Int64Facts.

(** ** Type assertions *)

Lemma asInt64_Some v n : asInt64 v = Some n <-> v = VInt64 n.
Proof. destruct v; simpl; split; intros H; inversion H; reflexivity. Qed.

Lemma asString_Some v s : asString v = Some s <-> v = VString s.
Proof. destruct v; simpl; split; intros H; inversion H; reflexivity. Qed.

Lemma asMap_Some v m : asMap v = Some m <-> v = VMap m.
Proof. destruct v; simpl; split; intros H; inversion H; reflexivity. Qed.

(** A missing key indexes to the nil interface, on which every assertion fails. *)
Lemma index_missing (m : gmap string value) k : m !! k = None -> index m k = VNil.
Proof. unfold index. intros ->. reflexivity. Qed.

(** ** Membership in the analyzer's output *)

Lemma elem_slowQueryLines l stats :
  l ∈ slowQueryLines stats <->
  l = WarnSlowQuery /\
  exists t, index stats "executionTimeMillis" = VInt64 t /\ 100 < t.
Proof.
  unfold slowQueryLines.
  destruct (asInt64 _) as [t|] eqn:E.
  - apply asInt64_Some in E. destruct (Z.ltb_spec 100 t).
    + rewrite list_elem_of_singleton. split; [eauto|tauto].
    + rewrite elem_of_nil. split; [tauto|].
      intros [_ (t' & E' & Hlt)]. rewrite E in E'. inversion E'. lia.
  - rewrite elem_of_nil. split; [tauto|].
    intros [_ (t' & E' & _)]. rewrite E' in E. discriminate.
Qed.

Lemma elem_overExaminedLines l stats :
  l ∈ overExaminedLines stats <->
  exists t n,
    index stats "totalDocsExamined" = VInt64 t /\
    index stats "nReturned" = VInt64 n /\
    0 < n /\ Int64.mul n 2 < t /\
    l = WarnOverExamined (Int64.quot t n).
Proof.
  unfold overExaminedLines.
  destruct (asInt64 (index stats "totalDocsExamined")) as [t|] eqn:Et.
  2:{ rewrite elem_of_nil. split; [tauto|].
      intros (t' & n' & E' & _). rewrite E' in Et. discriminate. }
  destruct (asInt64 (index stats "nReturned")) as [n|] eqn:En.
  2:{ rewrite elem_of_nil. split; [tauto|].
      intros (t' & n' & _ & E' & _). rewrite E' in En. discriminate. }
  apply asInt64_Some in Et, En.
  destruct (Z.ltb_spec 0 n); [destruct (Z.ltb_spec (Int64.mul n 2) t)|].
  - rewrite list_elem_of_singleton. split.
    + intros ->. eauto 10.
    + intros (t' & n' & E1 & E2 & _ & _ & ->).
      rewrite Et in E1. rewrite En in E2. inversion E1. inversion E2. reflexivity.
  - rewrite elem_of_nil. split; [tauto|].
    intros (t' & n' & E1 & E2 & _ & Hlt & _).
    rewrite Et in E1. rewrite En in E2. inversion E1. inversion E2. subst. lia.
  - rewrite elem_of_nil. split; [tauto|].
    intros (t' & n' & E1 & E2 & Hpos & _).
    rewrite En in E2. inversion E2. subst. lia.
Qed.

Lemma stageLines_not_warning wp stage l :
  l ∈ stageLines wp stage -> isStatsWarning l = false.
Proof.
  unfold stageLines.
  repeat match goal with
         | |- context [String.eqb ?a ?b] => destruct (String.eqb a b)
         | |- context [asString ?v] => destruct (asString v)
         end;
    rewrite ?elem_of_cons, ?elem_of_nil; intuition (subst; reflexivity).
Qed.

Lemma planSection_not_warning r l :
  l ∈ planSection r -> isStatsWarning l = false.
Proof.
  unfold planSection.
  destruct (asMap (index r "queryPlanner")) as [qp|]; [|by rewrite elem_of_nil].
  rewrite elem_of_cons. intros [->|H]; [reflexivity|].
  destruct (asMap (index qp "winningPlan")) as [wp|]; [|by apply elem_of_nil in H].
  destruct (asString (index wp "stage")) as [stage|]; [|by apply elem_of_nil in H].
  apply elem_of_cons in H as [->|H]; [reflexivity|].
  eapply stageLines_not_warning, H.
Qed.

Lemma elem_PrintExplainResults l r version :
  l ∈ PrintExplainResults r version <->
  l = ExplainHeader version \/ l ∈ statsSection r \/ l ∈ planSection r
  \/ l ∈ [JsonHeader; JsonDump r; BlankLine; Rule].
Proof.
  unfold PrintExplainResults.
  rewrite !elem_of_app, list_elem_of_singleton. tauto.
Qed.

Lemma warning_in_PrintExplainResults l r version :
  isStatsWarning l = true ->
  l ∈ PrintExplainResults r version <->
  exists stats,
    index r "executionStats" = VMap stats /\
    (l ∈ slowQueryLines stats \/ l ∈ overExaminedLines stats).
Proof.
  intros Hw. rewrite elem_PrintExplainResults. split.
  - intros [->|[H|[H|H]]]; try discriminate.
    + unfold statsSection in H.
      destruct (asMap (index r "executionStats")) as [stats|] eqn:E;
        [|by apply elem_of_nil in H].
      apply asMap_Some in E. exists stats. split; [exact E|].
      rewrite !elem_of_app in H. destruct H as [H|[H|H]]; [|tauto..].
      rewrite !elem_of_cons, elem_of_nil in H.
      intuition (subst; discriminate).
    + apply planSection_not_warning in H. congruence.
    + rewrite !elem_of_cons, elem_of_nil in H. intuition (subst; discriminate).
  - intros (stats & E & H). right. left. unfold statsSection.
    rewrite E. simpl asMap. cbv iota. rewrite !elem_of_app. tauto.
Qed.

Lemma stageLines_explain wp stage l :
  l ∈ stageLines wp stage -> isExplainLine l = true.
Proof.
  unfold stageLines.
  repeat match goal with
         | |- context [String.eqb ?a ?b] => destruct (String.eqb a b)
         | |- context [asString ?v] => destruct (asString v)
         end;
    rewrite ?elem_of_cons, ?elem_of_nil; intuition (subst; reflexivity).
Qed.

Lemma PrintExplainResults_lines r version l :
  l ∈ PrintExplainResults r version -> isExplainLine l = true.
Proof.
  rewrite elem_PrintExplainResults. intros [->|[H|[H|H]]]; [reflexivity| | |].
  - unfold statsSection in H.
    destruct (asMap (index r "executionStats")) as [stats|];
      [|by apply elem_of_nil in H].
    rewrite !elem_of_app in H. destruct H as [H|[H|H]].
    + rewrite !elem_of_cons, elem_of_nil in H. intuition (subst; reflexivity).
    + apply elem_slowQueryLines in H as [-> _]. reflexivity.
    + apply elem_overExaminedLines in H as (t & n & _ & _ & _ & _ & ->). reflexivity.
  - unfold planSection in H.
    destruct (asMap (index r "queryPlanner")) as [qp|]; [|by apply elem_of_nil in H].
    apply elem_of_cons in H as [->|H]; [reflexivity|].
    destruct (asMap (index qp "winningPlan")) as [wp|]; [|by apply elem_of_nil in H].
    destruct (asString (index wp "stage")) as [stage|]; [|by apply elem_of_nil in H].
    apply elem_of_cons in H as [->|H]; [reflexivity|].
    eapply stageLines_explain, H.
  - rewrite !elem_of_cons, elem_of_nil in H. intuition (subst; reflexivity).
Qed.

Lemma elem_efficiencyLines l es :
  l ∈ efficiencyLines es <->
  0 < TotalDocsExamined es /\
  (l = EfficiencyRatio (efficiency es)
   \/ l = WarnLowEfficiency /\ PrimFloat.ltb (efficiency es) 50 = true).
Proof.
  unfold efficiencyLines.
  destruct (Z.ltb_spec 0 (TotalDocsExamined es)).
  - destruct (PrimFloat.ltb (efficiency es) 50);
      rewrite ?elem_of_cons, ?elem_of_nil; intuition discriminate.
  - rewrite elem_of_nil. split; [tauto|]. intros [? _]. lia.
Qed.

Lemma PrintMetrics_lines m version l :
  l ∈ PrintMetrics m version -> isMetricsLine l = true.
Proof.
  unfold PrintMetrics. rewrite !elem_of_app. intros [H|[H|H]].
  - rewrite !elem_of_cons, elem_of_nil in H. intuition (subst; reflexivity).
  - destruct (Stats m) as [es|]; [|by apply elem_of_nil in H].
    rewrite elem_of_app in H. destruct H as [H|H].
    + rewrite !elem_of_cons, elem_of_nil in H. intuition (subst; reflexivity).
    + apply elem_efficiencyLines in H as [_ [->|[-> _]]]; reflexivity.
  - apply list_elem_of_singleton in H as ->. reflexivity.
Qed.

(** The efficiency lines of [PrintMetrics] are those of its statistics. *)
Lemma efficiency_in_PrintMetrics l m version :
  (l = WarnLowEfficiency \/ exists p, l = EfficiencyRatio p) ->
  l ∈ PrintMetrics m version <->
  exists es, Stats m = Some es /\ l ∈ efficiencyLines es.
Proof.
  intros Hl. unfold PrintMetrics. rewrite !elem_of_app. split.
  - intros [H|[H|H]].
    + rewrite !elem_of_cons, elem_of_nil in H.
      destruct Hl as [->|[p ->]]; intuition discriminate.
    + destruct (Stats m) as [es|]; [|by apply elem_of_nil in H].
      exists es. split; [reflexivity|].
      apply elem_of_app in H as [H|H]; [|exact H].
      rewrite !elem_of_cons, elem_of_nil in H.
      destruct Hl as [->|[p ->]]; intuition discriminate.
    + apply list_elem_of_singleton in H.
      destruct Hl as [->|[p ->]]; discriminate.
  - intros (es & -> & H). right. left. apply elem_of_app. right. exact H.
Qed.

(** ** Statistics parsing in closed form *)

Lemma parseExecutionStats_spec execStats :
  parseExecutionStats execStats =
  match int64Field execStats "executionTimeMillis",
        int64Field execStats "totalDocsExamined",
        int64Field execStats "totalKeysExamined",
        int64Field execStats "nReturned" with
  | None, None, None, None => None
  | t, d, k, n =>
      Some (mkExecutionStats (default 0 t) (default 0 d) (default 0 k)
              (default 0 n) VNil)
  end.
Proof.
  unfold parseExecutionStats, int64Field.
  destruct (asInt64 (index execStats "executionTimeMillis"));
    destruct (asInt64 (index execStats "totalDocsExamined"));
    destruct (asInt64 (index execStats "totalKeysExamined"));
    destruct (asInt64 (index execStats "nReturned")); reflexivity.
Qed.

Lemma omap_scan_statsSection r : omap scanOfLine (statsSection r) = [].
Proof.
  unfold statsSection, slowQueryLines, overExaminedLines.
  destruct (asMap (index r "executionStats")) as [stats|]; [|reflexivity].
  rewrite !omap_app.
  repeat match goal with
         | |- context [asInt64 ?v] => destruct (asInt64 v)
         | |- context [Z.ltb ?a ?b] => destruct (Z.ltb a b)
         end; reflexivity.
Qed.

Lemma reportedScan_PrintExplainResults r version qp wp stage :
  index r "queryPlanner" = VMap qp ->
  index qp "winningPlan" = VMap wp ->
  index wp "stage" = VString stage ->
  reportedScan (PrintExplainResults r version) =
  reportedScan (stageLines wp stage).
Proof.
  intros Hqp Hwp Hstage. unfold reportedScan, PrintExplainResults.
  rewrite !omap_app, omap_scan_statsSection.
  unfold planSection. rewrite Hqp. simpl asMap. cbv iota.
  rewrite Hwp. simpl asMap. cbv iota. rewrite Hstage. simpl asString. cbv iota.
  simpl. rewrite app_nil_r. reflexivity.
Qed.



Lemma slow_warning_iff r version :
  WarnSlowQuery ∈ PrintExplainResults r version <->
  exists stats t,
    index r "executionStats" = VMap stats /\
    index stats "executionTimeMillis" = VInt64 t /\ 100 < t.
Proof.
  split.
  - intros H.
    apply warning_in_PrintExplainResults in H as (stats & E & [H|H]);
      [| |reflexivity].
    + apply elem_slowQueryLines in H as [_ (t & Ht & Hlt)]. eauto.
    + apply elem_overExaminedLines in H as (t & n & _ & _ & _ & _ & H).
      discriminate.
  - intros (stats & t & E & Ht & Hlt).
    apply warning_in_PrintExplainResults; [reflexivity|].
    exists stats. split; [exact E|].
    left. apply elem_slowQueryLines. eauto.
Qed.

Lemma over_examined_warning_iff r version :
  (exists ratio, WarnOverExamined ratio ∈ PrintExplainResults r version) <->
  exists stats t n,
    index r "executionStats" = VMap stats /\
    index stats "totalDocsExamined" = VInt64 t /\
    index stats "nReturned" = VInt64 n /\
    0 < n /\ Int64.mul n 2 < t.
Proof.
  split.
  - intros (ratio & H).
    apply warning_in_PrintExplainResults in H as (stats & E & [H|H]);
      [| |reflexivity].
    + apply elem_slowQueryLines in H as [H _]. discriminate.
    + apply elem_overExaminedLines in H as (t & n & Ht & Hn & Hpos & Hlt & _).
      eauto 10.
  - intros (stats & t & n & E & Ht & Hn & Hpos & Hlt).
    exists (Int64.quot t n).
    apply warning_in_PrintExplainResults; [reflexivity|].
    exists stats. split; [exact E|]. right.
    apply elem_overExaminedLines. eauto 10.
Qed.

Lemma int64Field_other_type execStats k :
  (forall n, index execStats k <> VInt64 n) -> int64Field execStats k = None.
Proof.
  unfold int64Field. intros H.
  destruct (asInt64 (index execStats k)) as [n|] eqn:E; [|reflexivity].
  apply asInt64_Some in E. destruct (H n E).
Qed.

(** C10. The warnings and the statistics are gated on the dynamic type
    int64. The slow-query warning is printed exactly when executionTimeMillis
    asserts to int64 and exceeds 100; the over-examination warning exactly when
    totalDocsExamined and nReturned both assert to int64 (and satisfy the
    thresholds); the parsed statistics hold, for each field, the int64 found
    under its key and zero otherwise, and are nil when no field is an int64.
    A value of any other type (an int32, a double) under a key is as good as
    absent: it is not copied and raises no warning. *)
Theorem warnings_and_stats_gated_on_int64 :
  (forall r version,
     WarnSlowQuery ∈ PrintExplainResults r version <->
     exists stats t,
       index r "executionStats" = VMap stats /\
       index stats "executionTimeMillis" = VInt64 t /\ 100 < t)
  /\ (forall r version,
        (exists ratio, WarnOverExamined ratio ∈ PrintExplainResults r version) <->
        exists stats t n,
          index r "executionStats" = VMap stats /\
          index stats "totalDocsExamined" = VInt64 t /\
          index stats "nReturned" = VInt64 n /\
          0 < n /\ Int64.mul n 2 < t)
  /\ (forall execStats,
        parseExecutionStats execStats =
        match int64Field execStats "executionTimeMillis",
              int64Field execStats "totalDocsExamined",
              int64Field execStats "totalKeysExamined",
              int64Field execStats "nReturned" with
        | None, None, None, None => None
        | t, d, k, n =>
            Some (mkExecutionStats (default 0 t) (default 0 d) (default 0 k)
                    (default 0 n) VNil)
        end)
  /\ (forall execStats k,
        (forall n, index execStats k <> VInt64 n) ->
        int64Field execStats k = None)
  /\ (forall r version stats,
        index r "executionStats" = VMap stats ->
        (forall n, index stats "executionTimeMillis" <> VInt64 n) ->
        WarnSlowQuery ∉ PrintExplainResults r version)
  /\ (forall r version stats ratio,
        index r "executionStats" = VMap stats ->
        (forall n, index stats "totalDocsExamined" <> VInt64 n)
        \/ (forall n, index stats "nReturned" <> VInt64 n) ->
        WarnOverExamined ratio ∉ PrintExplainResults r version).
Proof.
  split; [exact slow_warning_iff|].
  split; [exact over_examined_warning_iff|].
  split; [exact parseExecutionStats_spec|].
  split; [exact int64Field_other_type|].
  split.
  - intros r version stats E Hty H.
    apply slow_warning_iff in H as (stats' & t & E' & Ht' & _).
    rewrite E in E'. inversion E'; subst stats'. exact (Hty t Ht').
  - intros r version stats ratio E Hty H.
    destruct (proj1 (over_examined_warning_iff r version))
      as (stats' & t & n & E' & Ht & Hn & _); [eauto|].
    rewrite E in E'. inversion E'; subst stats'.
    destruct Hty as [Hty|Hty]; [exact (Hty t Ht)|exact (Hty n Hn)].
Qed.

(** An int32 of 150 ms, as the server sends it, prints no warning and leaves
    the statistics nil. *)
Example int32_time_is_ignored :
  slowQueryLines {["executionTimeMillis" := VInt32 150]} = []
  /\ parseExecutionStats {["executionTimeMillis" := VInt32 150]} = None
  /\ overExaminedLines
       (<["totalDocsExamined" := VFloat64 1000]> {["nReturned" := VInt64 1]}) = [].
Proof. repeat split; reflexivity. Qed.

Lemma parse_three_fields stats e t n :
  index stats "executionTimeMillis" = VInt64 e ->
  index stats "totalDocsExamined" = VInt64 t ->
  index stats "nReturned" = VInt64 n ->
  exists k, parseExecutionStats stats = Some (mkExecutionStats e t k n VNil).
Proof.
  intros He Ht Hn. rewrite parseExecutionStats_spec. unfold int64Field.
  rewrite He, Ht, Hn. simpl.
  destruct (asInt64 (index stats "totalKeysExamined")); eauto.
Qed.



(** The figures of the specification: 10 returned of 100 examined is an
    efficiency of 10 percent, below the threshold; 50 ms raises no latency
    warning. *)
Example efficiency_ten_percent :
  efficiency (mkExecutionStats 150 100 0 10 VNil) = 10%float
  /\ efficiencyLines (mkExecutionStats 150 100 0 10 VNil)
     = [EfficiencyRatio 10; WarnLowEfficiency]
  /\ slowQueryLines (sampleStats 150 100 10) = [WarnSlowQuery]
  /\ slowQueryLines (sampleStats 50 100 10) = [].
Proof. repeat split; reflexivity. Qed.

(** Beyond 2^53 the ratio is a rounded one: 2^53 of 2^54+1 is below one
    half, and prints as exactly 50 percent. *)
Example efficiency_is_rounded :
  efficiency (mkExecutionStats 0 (2 ^ 54 + 1) 0 (2 ^ 53) VNil) = 50%float.
Proof. reflexivity. Qed.

(** On counts up to 200 the float comparison agrees with the exact one:
    the ratio is below 50 percent exactly when [2 * n < t]. *)
Example efficiency_threshold_small_counts :
  forallb
    (fun t =>
       forallb
         (fun n =>
            Bool.eqb
              (PrimFloat.ltb
                 (efficiency (mkExecutionStats 0 (Z.of_nat t) 0 (Z.of_nat n) VNil)) 50)
              (2 * Z.of_nat n <? Z.of_nat t))
         (seq 0 201))
    (seq 1 200)
  = true.
Proof. vm_compute. reflexivity. Qed.

(** ** Absent fields *)


Lemma no_plan_no_verdict r version :
  (index r "queryPlanner" = VNil
   \/ (exists qp, index r "queryPlanner" = VMap qp /\ index qp "winningPlan" = VNil)
   \/ (exists qp wp, index r "queryPlanner" = VMap qp
                     /\ index qp "winningPlan" = VMap wp
                     /\ index wp "stage" = VNil)) ->
  reportedScan (PrintExplainResults r version) = Unknown.
Proof.
  intros H. unfold reportedScan, PrintExplainResults.
  rewrite !omap_app, omap_scan_statsSection. unfold planSection.
  destruct H as [H|[(qp & H1 & H2)|(qp & wp & H1 & H2 & H3)]].
  - rewrite H. reflexivity.
  - rewrite H1. simpl asMap. cbv iota. rewrite H2. reflexivity.
  - rewrite H1. simpl asMap. cbv iota. rewrite H2. simpl asMap. cbv iota.
    rewrite H3. reflexivity.
Qed.


(** ** Memory delta *)

Lemma memoryUsed_wrap memBefore memAfter :
  memoryUsed memBefore memAfter = Int64.wrap (memAfter - memBefore).
Proof. unfold memoryUsed, Int64.of_uint64, Int64.usub. apply Int64Facts.wrap_uwrap. Qed.

(** C9. The reported memory delta is the after-sample minus the
    before-sample, as a signed number: the uint64 subtraction wraps and the
    conversion to int64 reads the wrapped bits back as the signed difference.
    A smaller after-sample gives a negative delta; nothing clamps it to zero.
    (The difference of two byte counts of a heap fits in an int64.) *)
Theorem memory_delta_is_signed_difference (memBefore memAfter : Z) :
  Int64.in_urange memBefore ->
  Int64.in_urange memAfter ->
  Int64.in_range (memAfter - memBefore) ->
  memoryUsed memBefore memAfter = memAfter - memBefore
  /\ (memAfter < memBefore -> memoryUsed memBefore memAfter < 0).
Proof.
  intros _ _ Hfit. rewrite memoryUsed_wrap, Int64Facts.wrap_small by exact Hfit.
  split; [reflexivity|lia].
Qed.

(** The megabytes printed for a heap that shrank by 2,000,000 bytes. *)
Example negative_delta_is_printed :
  MetricsMemoryMB (-1.9073486328125)
    ∈ PrintMetrics (mkQueryMetrics 0 0 (memoryUsed 5000000 3000000) None) "read_bad".
Proof. apply list_elem_of_In. vm_compute. do 3 right. left. reflexivity. Qed.

Lemma memory_delta_witness : memoryUsed 5000000 3000000 = -2000000.
Proof.
  apply (memory_delta_is_signed_difference 5000000 3000000);
    unfold Int64.in_urange, Int64.in_range, Int64.modulus, Int64.min_signed,
      Int64.max_signed; lia.
Defined.

(** ** Sums over action lists *)

Lemma sumZ_app {A} (f : A -> Z) l1 l2 : sumZ f (l1 ++ l2) = sumZ f l1 + sumZ f l2.
Proof. induction l1 as [|x l1 IH]; simpl; [reflexivity|]. rewrite IH. lia. Qed.

Lemma sumZ_insert {A} (f : A -> Z) (l : list A) i x y :
  l !! i = Some x -> sumZ f (<[i := y]> l) = sumZ f l - f x + f y.
Proof.
  revert i. induction l as [|z l IH]; intros [|i] H; simpl in *; try discriminate.
  - inversion H. subst. lia.
  - rewrite (IH i H). lia.
Qed.

Lemma sumZ_nonneg {A} (f : A -> Z) l : (forall x, 0 <= f x) -> 0 <= sumZ f l.
Proof. intros Hf. induction l as [|x l IH]; simpl; [lia|]. specialize (Hf x). lia. Qed.

Lemma sumZ_zero_elem {A} (f : A -> Z) l x :
  (forall y, 0 <= f y) -> sumZ f l = 0 -> x ∈ l -> f x = 0.
Proof.
  intros Hf. induction l as [|z l IH]; simpl; intros Hsum Hin.
  - apply elem_of_nil in Hin. destruct Hin.
  - pose proof (sumZ_nonneg f l Hf). pose proof (Hf z).
    apply elem_of_cons in Hin as [->|Hin]; [lia|]. apply IH; [lia|exact Hin].
Qed.

Lemma donesOf_nonneg acts : 0 <= donesOf acts.
Proof. apply sumZ_nonneg. intros []; simpl; lia. Qed.

Lemma donesOf_last acts : last acts = Some AWgDone -> 1 <= donesOf acts.
Proof.
  induction acts as [|a acts IH]; [discriminate|].
  destruct acts as [|b acts].
  - simpl. intros H. inversion H. simpl. lia.
  - intros H. change (last (a :: b :: acts)) with (last (b :: acts)) in H.
    specialize (IH H). unfold donesOf in *. simpl in *.
    destruct a; simpl; lia.
Qed.

(** ** One worker *)

Lemma decodedCount_decodable doc rest :
  decodedCount (Decodable doc :: rest) = 1 + decodedCount rest.
Proof.
  unfold decodedCount. rewrite filter_cons_True by reflexivity.
  rewrite length_cons. lia.
Qed.

Lemma decodedCount_corrupt e rest :
  decodedCount (Corrupt e :: rest) = decodedCount rest.
Proof.
  unfold decodedCount. rewrite filter_cons_False by discriminate. reflexivity.
Qed.

Lemma readChunk_spec workerID items localCount :
  snd (readChunk workerID items localCount) = localCount + decodedCount items
  /\ readsOf (fst (readChunk workerID items localCount)) = items
  /\ contribution (fst (readChunk workerID items localCount)) = 0
  /\ donesOf (fst (readChunk workerID items localCount)) = 0
  /\ requestsOf (fst (readChunk workerID items localCount)) = [].
Proof.
  revert localCount.
  induction items as [|[doc|e] rest IH]; intros localCount.
  - repeat split. simpl. unfold decodedCount. simpl. lia.
  - rewrite decodedCount_decodable. cbn [readChunk].
    specialize (IH (localCount + 1)).
    destruct (readChunk workerID rest (localCount + 1)) as [acts n].
    cbn [fst snd] in *. destruct IH as (-> & Hr & Hc & Hd & Hq).
    repeat split.
    + lia.
    + cbn. f_equal. exact Hr.
    + exact Hc.
    + exact Hd.
    + exact Hq.
  - rewrite decodedCount_corrupt. cbn [readChunk].
    specialize (IH localCount).
    destruct (readChunk workerID rest localCount) as [acts n].
    cbn [fst snd] in *. destruct IH as (-> & Hr & Hc & Hd & Hq).
    repeat split.
    + cbn. f_equal. exact Hr.
    + exact Hc.
    + exact Hd.
    + exact Hq.
Qed.

(** The decode-error lines of a chunk: one per record that fails to decode. *)
Lemma readChunk_logs workerID items localCount :
  logsOf (fst (readChunk workerID items localCount)) =
  omap (fun it => match it with
                  | Corrupt e => Some (WorkerDecodeError workerID e)
                  | Decodable _ => None
                  end) items.
Proof.
  revert localCount.
  induction items as [|[doc|e] rest IH]; intros localCount; simpl.
  - reflexivity.
  - specialize (IH (localCount + 1)).
    destruct (readChunk workerID rest (localCount + 1)) as [acts n]. exact IH.
  - specialize (IH localCount).
    destruct (readChunk workerID rest localCount) as [acts n].
    simpl in *. rewrite IH. reflexivity.
Qed.

Lemma readsOf_app l1 l2 : readsOf (l1 ++ l2) = readsOf l1 ++ readsOf l2.
Proof. apply omap_app. Qed.

Lemma requestsOf_app l1 l2 : requestsOf (l1 ++ l2) = requestsOf l1 ++ requestsOf l2.
Proof. apply omap_app. Qed.

Lemma logsOf_app l1 l2 : logsOf (l1 ++ l2) = logsOf l1 ++ logsOf l2.
Proof. apply omap_app. Qed.

Lemma cursorErr_lines_silent workerID (err : option Err) :
  let acts := match err with
              | Some e => [ALog (WorkerCursorError workerID e)]
              | None => []
              end in
  contribution acts = 0 /\ donesOf acts = 0 /\ readsOf acts = [] /\ requestsOf acts = [].
Proof. destruct err; repeat split. Qed.

(** What a worker with work does on a cursor. *)
Lemma workerBody_cursor store cfg totalCount workerID cursor :
  chunkSkip cfg workerID < totalCount ->
  Aggregate store (chunkSkip cfg workerID) (chunkSize cfg) = inr cursor ->
  contribution (workerBody store cfg totalCount workerID) = decodedCount (records cursor)
  /\ readsOf (workerBody store cfg totalCount workerID) = records cursor
  /\ requestsOf (workerBody store cfg totalCount workerID)
     = [(chunkSkip cfg workerID, chunkSize cfg)]
  /\ donesOf (workerBody store cfg totalCount workerID) = 0.
Proof.
  intros Hlt Hagg. unfold workerBody.
  destruct (Z.leb_spec totalCount (chunkSkip cfg workerID)); [lia|].
  rewrite Hagg.
  pose proof (readChunk_spec workerID (records cursor) 0) as (Hn & Hr & Hc & Hd & Hq).
  destruct (readChunk workerID (records cursor) 0) as [acts n]. simpl in *.
  destruct (cursorErr_lines_silent workerID (cursorErr cursor)) as (Ec & Ed & Er & Eq).
  cbv zeta in Ec, Ed, Er, Eq.
  unfold contribution, donesOf in *.
  rewrite !readsOf_app, !requestsOf_app, !sumZ_app, Hr, Hq, Hc, Hd, Ec, Ed, Er, Eq.
  simpl. rewrite app_nil_r. repeat split; lia.
Qed.

(** What a worker does when its request is refused. *)
Lemma workerBody_refused store cfg totalCount workerID e :
  chunkSkip cfg workerID < totalCount ->
  Aggregate store (chunkSkip cfg workerID) (chunkSize cfg) = inl e ->
  workerBody store cfg totalCount workerID
  = [ARequest (chunkSkip cfg workerID) (chunkSize cfg);
     ALog (WorkerRequestError workerID e)].
Proof.
  intros Hlt Hagg. unfold workerBody.
  destruct (Z.leb_spec totalCount (chunkSkip cfg workerID)); [lia|].
  rewrite Hagg. reflexivity.
Qed.

(** What a worker does when its chunk starts at or past the count. *)
Lemma workerBody_idle store cfg totalCount workerID :
  totalCount <= chunkSkip cfg workerID ->
  workerBody store cfg totalCount workerID = [].
Proof.
  intros Hle. unfold workerBody.
  destruct (Z.leb_spec totalCount (chunkSkip cfg workerID)); [reflexivity|lia].
Qed.

Lemma workerBody_dones store cfg totalCount workerID :
  donesOf (workerBody store cfg totalCount workerID) = 0.
Proof.
  destruct (Z.le_gt_cases totalCount (chunkSkip cfg workerID)) as [Hle|Hlt].
  - rewrite workerBody_idle by exact Hle. reflexivity.
  - destruct (Aggregate store (chunkSkip cfg workerID) (chunkSize cfg))
      as [e|cursor] eqn:Hagg.
    + rewrite (workerBody_refused _ _ _ _ e) by (lia || exact Hagg). reflexivity.
    + apply (workerBody_cursor store cfg totalCount workerID cursor); [lia|exact Hagg].
Qed.

Lemma worker_dones store cfg totalCount workerID :
  donesOf (worker store cfg totalCount workerID) = 1.
Proof.
  unfold worker, donesOf. rewrite sumZ_app.
  change (sumZ doneOf (workerBody store cfg totalCount workerID))
    with (donesOf (workerBody store cfg totalCount workerID)).
  rewrite workerBody_dones. reflexivity.
Qed.

Lemma worker_last store cfg totalCount workerID :
  last (worker store cfg totalCount workerID) = Some AWgDone.
Proof. unfold worker. apply last_snoc. Qed.

Lemma worker_contribution store cfg totalCount workerID :
  contribution (worker store cfg totalCount workerID)
  = contribution (workerBody store cfg totalCount workerID).
Proof. unfold worker, contribution. rewrite sumZ_app. simpl. lia. Qed.

(** The count a worker adds, by cases. *)
Lemma worker_contribution_cases store cfg totalCount workerID :
  contribution (worker store cfg totalCount workerID) =
  if totalCount <=? chunkSkip cfg workerID then 0
  else match Aggregate store (chunkSkip cfg workerID) (chunkSize cfg) with
       | inl _ => 0
       | inr cursor => decodedCount (records cursor)
       end.
Proof.
  rewrite worker_contribution.
  destruct (Z.leb_spec totalCount (chunkSkip cfg workerID)) as [Hle|Hlt].
  - rewrite workerBody_idle by exact Hle. reflexivity.
  - destruct (Aggregate store (chunkSkip cfg workerID) (chunkSize cfg))
      as [e|cursor] eqn:Hagg.
    + rewrite (workerBody_refused _ _ _ _ e) by (lia || exact Hagg). reflexivity.
    + apply (workerBody_cursor store cfg totalCount workerID cursor); [lia|exact Hagg].
Qed.

Lemma decodedCount_bounds items :
  0 <= decodedCount items <= Z.of_nat (length items).
Proof.
  unfold decodedCount.
  pose proof (length_filter (fun it => isDecodable it = true) items). lia.
Qed.

Lemma chunkSkip_exact cfg workerID :
  Int64.in_range (Z.of_nat workerID * chunkSize cfg) ->
  chunkSkip cfg workerID = Z.of_nat workerID * chunkSize cfg.
Proof. apply Int64Facts.mul_small. Qed.

(** ** The scheduler invariant *)

Section Scheduler.

Variable store : Store.
Variable cfg : Config.
Variable totalCount : Z.

Lemma sumLen_app l1 l2 : sumLen (l1 ++ l2) = (sumLen l1 + sumLen l2)%nat.
Proof. induction l1 as [|x l1 IH]; simpl; [reflexivity|]. rewrite IH. lia. Qed.

Lemma sumLen_insert (l : list (list Action)) i a rest :
  l !! i = Some (a :: rest) -> sumLen l = S (sumLen (<[i := rest]> l)).
Proof.
  revert i. induction l as [|z l IH]; intros [|i] H; simpl in *; try discriminate.
  - inversion H. subst. simpl. lia.
  - rewrite (IH i H). lia.
Qed.

Lemma elem_of_insert_inv {A} (l : list A) i x y :
  x ∈ <[i := y]> l -> x = y \/ x ∈ l.
Proof.
  revert i. induction l as [|z l IH]; intros [|i]; simpl; intros H.
  - apply elem_of_nil in H. destruct H.
  - apply elem_of_nil in H. destruct H.
  - apply elem_of_cons in H as [->|H]; [tauto|]. right. apply elem_of_cons. tauto.
  - apply elem_of_cons in H as [->|H].
    + right. apply elem_of_cons. tauto.
    + destruct (IH i H) as [->|H']; [tauto|]. right. apply elem_of_cons. tauto.
Qed.

Lemma sumZ_nonzero_lookup {A} (f : A -> Z) l :
  sumZ f l <> 0 -> exists i x, l !! i = Some x /\ f x <> 0.
Proof.
  induction l as [|z l IH]; simpl; intros H; [lia|].
  destruct (Z.eq_dec (f z) 0) as [Hz|Hz].
  - destruct IH as (i & x & Hi & Hx); [lia|]. exists (S i), x. tauto.
  - exists O, z. tauto.
Qed.

Lemma invariant_initial : invariant store cfg totalCount initial.
Proof.
  unfold invariant, initial. simpl.
  split; [lia|]. split; [reflexivity|]. split; [reflexivity|]. split.
  - intros acts H. apply elem_of_nil in H. destruct H.
  - discriminate.
Qed.

(** Past the barrier every goroutine has finished. *)
Lemma all_done_when_counter_zero st :
  invariant store cfg totalCount st -> wg st = 0 ->
  forall acts, acts ∈ threads st -> acts = [].
Proof.
  intros (_ & Hwg & _ & Hlast & _) Hzero acts Hin.
  destruct (Hlast acts Hin) as [->|Hl]; [reflexivity|].
  apply donesOf_last in Hl.
  assert (donesOf acts = 0); [|lia].
  apply (sumZ_zero_elem donesOf (threads st)); [apply donesOf_nonneg|lia|exact Hin].
Qed.

Lemma worker_step_before_return st workerID st' :
  invariant store cfg totalCount st ->
  workerStep workerID st = Some st' -> returned st = None.
Proof.
  intros Hinv Hstep. destruct (returned st) as [v|] eqn:Hret; [|reflexivity].
  pose proof Hinv as (_ & _ & _ & _ & Hr).
  destruct (Hr v Hret) as (_ & _ & Hzero).
  unfold workerStep in Hstep.
  destruct (threads st !! workerID) as [[|a rest]|] eqn:Hth; try discriminate.
  assert (a :: rest = []); [|discriminate].
  apply (all_done_when_counter_zero st Hinv Hzero).
  apply list_elem_of_lookup. eauto.
Qed.

Lemma invariant_step t st st' :
  invariant store cfg totalCount st ->
  step store cfg totalCount t st = Some st' ->
  invariant store cfg totalCount st'.
Proof.
  intros Hinv Hstep. pose proof Hinv as (Hlen & Hwg & Htot & Hlast & Hret).
  destruct t as [|workerID]; simpl in Hstep.
  - unfold coordinatorStep in Hstep.
    destruct (returned st) as [v|] eqn:Hr; [discriminate|].
    destruct (Nat.ltb_spec (length (threads st)) (numWorkers cfg)) as [Hlt|Hge].
    + inversion Hstep; subst st'; clear Hstep. unfold invariant. simpl.
      rewrite length_app, !sumZ_app. simpl.
      rewrite worker_dones, Nat.add_1_r. simpl.
      split; [lia|]. split; [lia|]. split.
      { rewrite Htot. f_equal. lia. }
      split.
      { intros acts [H|H]%elem_of_app; [auto|].
        apply list_elem_of_singleton in H as ->. right. apply worker_last. }
      discriminate.
    + destruct (Z.eqb_spec (wg st) 0) as [Hz|Hnz]; [|discriminate].
      inversion Hstep; subst st'; clear Hstep. unfold invariant. simpl.
      split; [lia|]. split; [exact Hwg|]. split; [exact Htot|].
      split; [exact Hlast|].
      intros v Hv. inversion Hv. repeat split; lia.
  - pose proof (worker_step_before_return st workerID st' Hinv Hstep) as Hr.
    unfold workerStep in Hstep.
    destruct (threads st !! workerID) as [[|a rest]|] eqn:Hth; try discriminate.
    inversion Hstep; subst st'; clear Hstep.
    assert (Hlast' : forall acts,
               acts ∈ <[workerID := rest]> (threads st) ->
               acts = [] \/ last acts = Some AWgDone).
    { intros acts [->|H]%elem_of_insert_inv; [|auto].
      destruct (Hlast (a :: rest)) as [H|H]; [apply list_elem_of_lookup; eauto|discriminate|].
      destruct rest as [|b rest]; [tauto|]. right. exact H. }
    assert (Hd : sumZ donesOf (<[workerID := rest]> (threads st))
                 = sumZ donesOf (threads st) - doneOf a).
    { rewrite (sumZ_insert donesOf _ _ _ _ Hth).
      change (donesOf (a :: rest)) with (doneOf a + donesOf rest). lia. }
    assert (Hc : sumZ contribution (<[workerID := rest]> (threads st))
                 = sumZ contribution (threads st) - addOf a).
    { rewrite (sumZ_insert contribution _ _ _ _ Hth).
      change (contribution (a :: rest)) with (addOf a + contribution rest). lia. }
    unfold invariant.
    destruct a; simpl in *; rewrite length_insert;
      (split; [exact Hlen|]); (split; [lia|]);
      (split; [|split; [exact Hlast'|rewrite Hr; discriminate]]).
    + rewrite Htot. f_equal. lia.
    + rewrite Htot. f_equal. lia.
    + rewrite Htot. f_equal. lia.
    + rewrite Htot, Int64Facts.add_wrap_l. f_equal. lia.
    + rewrite Htot. f_equal. lia.
Qed.

Lemma invariant_run schedule st0 st :
  invariant store cfg totalCount st0 ->
  run store cfg totalCount schedule st0 = Some st ->
  invariant store cfg totalCount st.
Proof.
  revert st0. induction schedule as [|t schedule IH]; intros st0 Hinv Hrun; simpl in Hrun.
  - inversion Hrun. subst. exact Hinv.
  - destruct (step store cfg totalCount t st0) as [st1|] eqn:Hstep; [|discriminate].
    apply (IH st1); [eapply invariant_step; eauto|exact Hrun].
Qed.

(** Every step consumes exactly one unit of the measure. *)
Lemma remaining_step t st st' :
  invariant store cfg totalCount st ->
  step store cfg totalCount t st = Some st' ->
  remaining store cfg totalCount st = S (remaining store cfg totalCount st').
Proof.
  intros Hinv Hstep. pose proof Hinv as (Hlen & _).
  destruct t as [|workerID]; simpl in Hstep.
  - unfold coordinatorStep in Hstep.
    destruct (returned st) as [v|] eqn:Hr; [discriminate|].
    destruct (Nat.ltb_spec (length (threads st)) (numWorkers cfg)) as [Hlt|Hge].
    + inversion Hstep; subst st'; clear Hstep. unfold remaining. simpl.
      rewrite Hr, length_app, sumLen_app. simpl.
      replace (numWorkers cfg - length (threads st))%nat
        with (S (numWorkers cfg - (length (threads st) + 1)))%nat by lia.
      simpl. rewrite Nat.add_1_r. lia.
    + destruct (Z.eqb_spec (wg st) 0) as [Hz|Hnz]; [|discriminate].
      inversion Hstep; subst st'; clear Hstep. unfold remaining. simpl.
      rewrite Hr. lia.
  - pose proof (worker_step_before_return st workerID st' Hinv Hstep) as Hr.
    unfold workerStep in Hstep.
    destruct (threads st !! workerID) as [[|a rest]|] eqn:Hth; try discriminate.
    inversion Hstep; subst st'; clear Hstep.
    unfold remaining. rewrite (sumLen_insert _ _ _ _ Hth).
    destruct a; simpl; rewrite length_insert; lia.
Qed.

Lemma remaining_run schedule st0 st :
  invariant store cfg totalCount st0 ->
  run store cfg totalCount schedule st0 = Some st ->
  (length schedule + remaining store cfg totalCount st
   = remaining store cfg totalCount st0)%nat.
Proof.
  revert st0. induction schedule as [|t schedule IH]; intros st0 Hinv Hrun; simpl in Hrun.
  - inversion Hrun. reflexivity.
  - destruct (step store cfg totalCount t st0) as [st1|] eqn:Hstep; [|discriminate].
    rewrite (remaining_step t st0 st1 Hinv Hstep).
    rewrite <- (IH st1 (invariant_step t st0 st1 Hinv Hstep) Hrun). simpl. lia.
Qed.

(** No deadlock: until the coordinator has returned, some thread can move. *)
Lemma progress st :
  invariant store cfg totalCount st -> returned st = None ->
  exists t st', step store cfg totalCount t st = Some st'.
Proof.
  intros (Hlen & Hwg & _ & _ & _) Hr.
  destruct (Nat.ltb_spec (length (threads st)) (numWorkers cfg)) as [Hlt|Hge].
  - exists Coordinator. simpl. unfold coordinatorStep. rewrite Hr.
    destruct (Nat.ltb_spec (length (threads st)) (numWorkers cfg)); [eauto|lia].
  - destruct (Z.eqb_spec (wg st) 0) as [Hz|Hnz].
    + exists Coordinator. simpl. unfold coordinatorStep. rewrite Hr.
      destruct (Nat.ltb_spec (length (threads st)) (numWorkers cfg)); [lia|].
      destruct (Z.eqb_spec (wg st) 0); [eauto|lia].
    + rewrite Hwg in Hnz.
      destruct (sumZ_nonzero_lookup donesOf (threads st) Hnz) as (i & acts & Hi & Hd).
      exists (Worker i). simpl. unfold workerStep. rewrite Hi.
      destruct acts as [|a rest]; [destruct Hd; reflexivity|eauto].
Qed.

(** While a goroutine is unfinished the coordinator has not returned, and
    once the loop is over it cannot move. *)
Lemma barrier_blocks st acts :
  invariant store cfg totalCount st ->
  acts ∈ threads st -> acts <> [] ->
  returned st = None
  /\ (length (threads st) = numWorkers cfg ->
      step store cfg totalCount Coordinator st = None).
Proof.
  intros Hinv Hin Hne.
  assert (Hwg : wg st <> 0).
  { intros Hz. apply Hne. eapply all_done_when_counter_zero; eauto. }
  pose proof Hinv as (_ & _ & _ & _ & Hret).
  split.
  - destruct (returned st) as [v|] eqn:Hr; [|reflexivity].
    destruct (Hret v eq_refl) as (_ & _ & Hz). contradiction.
  - intros Hlen. simpl. unfold coordinatorStep.
    destruct (returned st); [reflexivity|].
    destruct (Nat.ltb_spec (length (threads st)) (numWorkers cfg)); [lia|].
    destruct (Z.eqb_spec (wg st) 0); [contradiction|reflexivity].
Qed.

(** What the coordinator returns. *)
Lemma returned_value st v :
  invariant store cfg totalCount st -> returned st = Some v ->
  length (threads st) = numWorkers cfg
  /\ (forall acts, acts ∈ threads st -> acts = [])
  /\ v = runParallel store cfg totalCount.
Proof.
  intros Hinv Hv. pose proof Hinv as (_ & _ & Htot & _ & Hret).
  destruct (Hret v Hv) as (-> & Hlen & Hz).
  pose proof (all_done_when_counter_zero st Hinv Hz) as Hdone.
  split; [exact Hlen|]. split; [exact Hdone|].
  rewrite Htot, Hlen. unfold runParallel. f_equal.
  assert (sumZ contribution (threads st) = 0); [|lia].
  clear - Hdone. induction (threads st) as [|acts l IH]; [reflexivity|].
  simpl. rewrite (Hdone acts) by (apply elem_of_cons; tauto). simpl.
  apply IH. intros acts' H. apply Hdone. apply elem_of_cons. tauto.
Qed.

(** A step of one goroutine leaves the others as they were. *)
Lemma worker_step_frame st st' i j :
  workerStep i st = Some st' -> i <> j ->
  threads st' !! j = threads st !! j.
Proof.
  unfold workerStep. intros Hstep Hne.
  destruct (threads st !! i) as [[|a rest]|]; try discriminate.
  inversion Hstep. destruct a; simpl; apply list_lookup_insert_ne; exact Hne.
Qed.

End Scheduler.

(** Whatever the faults, a run can always be completed. *)
Lemma run_completes store cfg totalCount st :
  invariant store cfg totalCount st ->
  exists schedule st' v,
    run store cfg totalCount schedule st = Some st' /\ returned st' = Some v.
Proof.
  remember (remaining store cfg totalCount st) as n eqn:Hn.
  revert st Hn. induction n as [|n IH]; intros st Hn Hinv.
  - destruct (returned st) as [v|] eqn:Hr.
    + exists [], st, v. split; [reflexivity|exact Hr].
    + unfold remaining in Hn. rewrite Hr in Hn. lia.
  - destruct (returned st) as [v|] eqn:Hr.
    + exists [], st, v. split; [reflexivity|exact Hr].
    + destruct (progress store cfg totalCount st Hinv Hr) as (t & st1 & Hstep).
      pose proof (remaining_step store cfg totalCount t st st1 Hinv Hstep) as Hrem.
      destruct (IH st1) as (schedule & st' & v & Hrun & Hv).
      * lia.
      * eapply invariant_step; eauto.
      * exists (t :: schedule), st', v. simpl. rewrite Hstep. tauto.
Qed.

Lemma run_app store cfg totalCount schedule schedule' st0 st st' :
  run store cfg totalCount schedule st0 = Some st ->
  run store cfg totalCount schedule' st = Some st' ->
  run store cfg totalCount (schedule ++ schedule') st0 = Some st'.
Proof.
  revert st0. induction schedule as [|t schedule IH]; intros st0 Hrun Hrun'; simpl in *.
  - inversion Hrun. subst. exact Hrun'.
  - destruct (step store cfg totalCount t st0); [|discriminate].
    apply IH; assumption.
Qed.

(** Every run extends to one in which the coordinator returns the sum. *)
Lemma run_can_return store cfg totalCount schedule st :
  run store cfg totalCount schedule initial = Some st ->
  exists schedule' st' v,
    run store cfg totalCount (schedule ++ schedule') initial = Some st'
    /\ returned st' = Some v
    /\ v = runParallel store cfg totalCount.
Proof.
  intros Hrun.
  pose proof (invariant_run store cfg totalCount schedule initial st
                (invariant_initial store cfg totalCount) Hrun) as Hinv.
  destruct (run_completes store cfg totalCount st Hinv)
    as (schedule' & st' & v & Hrun' & Hv).
  exists schedule', st', v.
  pose proof (run_app _ _ _ _ _ _ _ _ Hrun Hrun') as Hall.
  split; [exact Hall|]. split; [exact Hv|].
  apply (returned_value store cfg totalCount st' v); [|exact Hv].
  apply (invariant_run store cfg totalCount (schedule ++ schedule') initial);
    [apply invariant_initial|exact Hall].
Qed.


(** ** The parallel run *)

Lemma worker_requests store cfg totalCount workerID :
  chunkSkip cfg workerID < totalCount ->
  requestsOf (worker store cfg totalCount workerID)
  = [(chunkSkip cfg workerID, chunkSize cfg)].
Proof.
  intros Hlt. unfold worker. rewrite requestsOf_app. simpl. rewrite app_nil_r.
  destruct (Aggregate store (chunkSkip cfg workerID) (chunkSize cfg))
    as [e|cursor] eqn:Hagg.
  - rewrite (workerBody_refused _ _ _ _ e) by (lia || exact Hagg). reflexivity.
  - apply (workerBody_cursor store cfg totalCount workerID cursor); [lia|exact Hagg].
Qed.

Lemma worker_idle store cfg totalCount workerID :
  totalCount <= chunkSkip cfg workerID ->
  worker store cfg totalCount workerID = [AWgDone].
Proof. intros Hle. unfold worker. rewrite workerBody_idle by exact Hle. reflexivity. Qed.

Lemma in_range_below_workers cfg i :
  0 < chunkSize cfg ->
  Z.of_nat (numWorkers cfg) * chunkSize cfg <= Int64.max_signed ->
  (i < numWorkers cfg)%nat ->
  Int64.in_range (Z.of_nat i * chunkSize cfg).
Proof.
  unfold Int64.in_range, Int64.min_signed, Int64.max_signed. intros Hpos Hfit Hi. nia.
Qed.

(** C3. Worker [i] of a run is given [skip = i * chunkSize] (the product
    fits in an int64 for the workers of the run); for a positive chunk size
    the skips increase strictly with the worker number and the ranges
    [skip, skip + chunkSize) of two workers do not overlap; a worker with
    work requests exactly its range; and a worker whose skip is at or past
    the count is started like the others but only runs its [wg.Done()]: no
    request, no record read, no log line and no add. *)
Theorem chunk_skips_increase_and_idle_workers_return
    (store : Store) (cfg : Config) (totalCount : Z) :
  0 < chunkSize cfg ->
  Z.of_nat (numWorkers cfg) * chunkSize cfg <= Int64.max_signed ->
  (forall i, (i < numWorkers cfg)%nat ->
     chunkSkip cfg i = Z.of_nat i * chunkSize cfg)
  /\ (forall i j, (i < j)%nat -> (j < numWorkers cfg)%nat ->
        chunkSkip cfg i < chunkSkip cfg j
        /\ chunkSkip cfg i + chunkSize cfg <= chunkSkip cfg j)
  /\ (forall i, (i < numWorkers cfg)%nat -> chunkSkip cfg i < totalCount ->
        requestsOf (worker store cfg totalCount i)
        = [(chunkSkip cfg i, chunkSize cfg)])
  /\ (forall i, (i < numWorkers cfg)%nat -> totalCount <= chunkSkip cfg i ->
        worker store cfg totalCount i = [AWgDone])
  /\ (forall st, returned st = None ->
        (length (threads st) < numWorkers cfg)%nat ->
        exists st',
          step store cfg totalCount Coordinator st = Some st'
          /\ threads st'
             = threads st ++ [worker store cfg totalCount (length (threads st))]
          /\ wg st' = wg st + 1).
Proof.
  intros Hpos Hfit.
  assert (Hskip : forall i, (i < numWorkers cfg)%nat ->
                    chunkSkip cfg i = Z.of_nat i * chunkSize cfg).
  { intros i Hi. apply chunkSkip_exact, in_range_below_workers; assumption. }
  split; [exact Hskip|]. split; [|split; [|split]].
  - intros i j Hij Hj. rewrite (Hskip i), (Hskip j) by lia. nia.
  - intros i _ Hlt. apply worker_requests. exact Hlt.
  - intros i _ Hle. apply worker_idle. exact Hle.
  - intros st Hr Hlt. simpl. unfold coordinatorStep. rewrite Hr.
    destruct (Nat.ltb_spec (length (threads st)) (numWorkers cfg)); [|lia].
    eexists. split; [reflexivity|]. simpl. tauto.
Qed.

Lemma chunk_skips_witness :
  chunkSkip read_v4_config 2 = 200000
  /\ worker smallStore read_v4_config 250000 3 = [AWgDone].
Proof.
  destruct (chunk_skips_increase_and_idle_workers_return smallStore read_v4_config 250000)
    as (Hskip & _ & _ & Hidle & _).
  - reflexivity.
  - vm_compute. discriminate.
  - split.
    + apply (Hskip 2%nat). simpl. lia.
    + apply (Hidle 3%nat); [simpl; lia|]. vm_compute. discriminate.
Defined.

(** C6. In every run of the goroutines, under any scheduler: once the
    coordinator has returned, all [numWorkers] goroutines were started and
    each has run to its end, and the value returned is the int64 sum of what
    the workers added (the plain sum when that fits), each worker adding its
    own local count in one atomic step; while any goroutine is unfinished the
    coordinator has not returned and, with the loop over, cannot move; until
    it returns some thread can always move, a run never takes more steps
    than there are actions, and every run extends to one in which the
    coordinator returns that sum; and a step of one goroutine changes no
    other goroutine. *)
Theorem coordinator_returns_sum_of_local_counts
    (store : Store) (cfg : Config) (totalCount : Z)
    (schedule : list Tid) (st : State) :
  run store cfg totalCount schedule initial = Some st ->
  (forall v, returned st = Some v ->
     length (threads st) = numWorkers cfg
     /\ (forall acts, acts ∈ threads st -> acts = [])
     /\ v = Int64.wrap (sumContributions store cfg totalCount (numWorkers cfg))
     /\ (Int64.in_range (sumContributions store cfg totalCount (numWorkers cfg)) ->
         v = sumContributions store cfg totalCount (numWorkers cfg)))
  /\ (forall acts, acts ∈ threads st -> acts <> [] ->
        returned st = None
        /\ (length (threads st) = numWorkers cfg ->
            step store cfg totalCount Coordinator st = None))
  /\ (returned st = None ->
      exists t st', step store cfg totalCount t st = Some st')
  /\ (length schedule + remaining store cfg totalCount st
      = remaining store cfg totalCount initial)%nat
  /\ (exists schedule' st' v,
        run store cfg totalCount (schedule ++ schedule') initial = Some st'
        /\ returned st' = Some v
        /\ v = runParallel store cfg totalCount)
  /\ (forall i j st',
        step store cfg totalCount (Worker i) st = Some st' -> i <> j ->
        threads st' !! j = threads st !! j)
  /\ (forall i,
        contribution (worker store cfg totalCount i) =
        if totalCount <=? chunkSkip cfg i then 0
        else match Aggregate store (chunkSkip cfg i) (chunkSize cfg) with
             | inl _ => 0
             | inr cursor => decodedCount (records cursor)
             end).
Proof.
  intros Hrun.
  pose proof (invariant_run store cfg totalCount schedule initial st
                (invariant_initial store cfg totalCount) Hrun) as Hinv.
  split; [|split; [|split; [|split; [|split; [|split]]]]].
  - intros v Hv.
    destruct (returned_value store cfg totalCount st v Hinv Hv) as (Hlen & Hdone & ->).
    split; [exact Hlen|]. split; [exact Hdone|]. split; [reflexivity|].
    intros Hfit. apply Int64Facts.wrap_small. exact Hfit.
  - intros acts Hin Hne. eapply barrier_blocks; eauto.
  - apply progress. exact Hinv.
  - apply remaining_run; [apply invariant_initial|exact Hrun].
  - apply run_can_return with (st := st). exact Hrun.
  - intros i j st' Hstep Hne. eapply worker_step_frame; eauto.
  - intros i. apply worker_contribution_cases.
Qed.

Lemma coordinator_returns_witness :
  returned <$> run smallStore read_v4_config 3 smallSchedule initial = Some (Some 3)
  /\ Int64.wrap (sumContributions smallStore read_v4_config 3 10) = 3.
Proof.
  eassert (Hrun : run smallStore read_v4_config 3 smallSchedule initial = Some _)
    by (vm_compute; reflexivity).
  split; [rewrite Hrun; reflexivity|].
  destruct (coordinator_returns_sum_of_local_counts _ _ _ _ _ Hrun) as (H & _).
  destruct (H 3 eq_refl) as (_ & _ & Hv & _). symmetry. exact Hv.
Defined.

(** ** A store that honours skip and limit *)

Lemma collectionStore_honours docs refuse cut :
  honoursWindow docs (collectionStore docs refuse cut).
Proof.
  intros skip limit cursor. simpl.
  destruct (refuse skip); [discriminate|].
  destruct (cut skip) as [[k e]|]; intros H; inversion H; simpl.
  - apply prefix_take.
  - reflexivity.
Qed.

Lemma window_length docs skip limit :
  length (window docs skip limit)
  = (Z.to_nat limit `min` (length docs - Z.to_nat skip))%nat.
Proof. unfold window. rewrite length_take, length_drop. reflexivity. Qed.

Lemma workerBody_reads store cfg totalCount workerID :
  readsOf (workerBody store cfg totalCount workerID) =
  if totalCount <=? chunkSkip cfg workerID then []
  else match Aggregate store (chunkSkip cfg workerID) (chunkSize cfg) with
       | inl _ => []
       | inr cursor => records cursor
       end.
Proof.
  destruct (Z.leb_spec totalCount (chunkSkip cfg workerID)) as [Hle|Hlt].
  - rewrite workerBody_idle by exact Hle. reflexivity.
  - destruct (Aggregate store (chunkSkip cfg workerID) (chunkSize cfg))
      as [e|cursor] eqn:Hagg.
    + rewrite (workerBody_refused _ _ _ _ e) by (lia || exact Hagg). reflexivity.
    + apply (workerBody_cursor store cfg totalCount workerID cursor); [lia|exact Hagg].
Qed.

Lemma worker_reads store cfg totalCount workerID :
  readsOf (worker store cfg totalCount workerID)
  = readsOf (workerBody store cfg totalCount workerID).
Proof. unfold worker. rewrite readsOf_app. simpl. apply app_nil_r. Qed.

Section Honouring.

Variable docs : list Item.
Variable store : Store.
Variable cfg : Config.
Variable totalCount : Z.
Hypothesis Hstore : honoursWindow docs store.

Lemma worker_reads_in_window workerID :
  readsOf (worker store cfg totalCount workerID)
    `prefix_of` window docs (chunkSkip cfg workerID) (chunkSize cfg).
Proof.
  rewrite worker_reads, workerBody_reads.
  destruct (totalCount <=? chunkSkip cfg workerID); [apply prefix_nil|].
  destruct (Aggregate store (chunkSkip cfg workerID) (chunkSize cfg))
    as [e|cursor] eqn:Hagg; [apply prefix_nil|].
  apply Hstore. exact Hagg.
Qed.

Lemma worker_contribution_le_chunk workerID :
  0 < chunkSize cfg ->
  0 <= contribution (worker store cfg totalCount workerID) <= chunkSize cfg.
Proof.
  intros Hpos. rewrite worker_contribution_cases.
  destruct (totalCount <=? chunkSkip cfg workerID); [lia|].
  destruct (Aggregate store (chunkSkip cfg workerID) (chunkSize cfg))
    as [e|cursor] eqn:Hagg; [lia|].
  pose proof (decodedCount_bounds (records cursor)).
  pose proof (prefix_length _ _ (Hstore _ _ _ Hagg)) as Hlen.
  rewrite window_length in Hlen. lia.
Qed.

Lemma sumContributions_le n :
  0 < chunkSize cfg ->
  0 <= sumContributions store cfg totalCount n <= Z.of_nat n * chunkSize cfg.
Proof.
  intros Hpos. induction n as [|n IH]; simpl sumContributions; [lia|].
  pose proof (worker_contribution_le_chunk n Hpos). lia.
Qed.

End Honouring.

(** C4. When [numWorkers * chunkSize] is below the number of matching
    documents, over a store that honours skip and limit: every record any
    worker iterates sits at a position below [numWorkers * chunkSize] of the
    matching sequence, so the tail from there on is read by nobody, and the
    total read is at most [numWorkers * chunkSize], hence below the count. *)
Theorem uncovered_tail_is_never_read
    (docs : list Item) (store : Store) (cfg : Config) (totalCount : Z) :
  honoursWindow docs store ->
  totalCount = Z.of_nat (length docs) ->
  totalCount <= Int64.max_signed ->
  0 < chunkSize cfg ->
  Z.of_nat (numWorkers cfg) * chunkSize cfg < totalCount ->
  (forall i k item,
     (i < numWorkers cfg)%nat ->
     readsOf (worker store cfg totalCount i) !! k = Some item ->
     docs !! (Z.to_nat (Z.of_nat i * chunkSize cfg) + k)%nat = Some item
     /\ Z.of_nat i * chunkSize cfg + Z.of_nat k
        < Z.of_nat (numWorkers cfg) * chunkSize cfg)
  /\ 0 <= runParallel store cfg totalCount
  /\ runParallel store cfg totalCount <= Z.of_nat (numWorkers cfg) * chunkSize cfg
  /\ runParallel store cfg totalCount < totalCount.
Proof.
  intros Hstore Hcount Hmax Hpos Hgap.
  pose proof (sumContributions_le docs store cfg totalCount Hstore (numWorkers cfg) Hpos)
    as Hsum.
  assert (Hrun : runParallel store cfg totalCount
                 = sumContributions store cfg totalCount (numWorkers cfg)).
  { apply Int64Facts.wrap_small.
    unfold Int64.in_range, Int64.min_signed, Int64.max_signed in *. lia. }
  split; [|rewrite Hrun; lia].
  intros i k item Hi Hread.
  pose proof (worker_reads_in_window docs store cfg totalCount Hstore i) as Hpre.
  pose proof (prefix_lookup_Some _ _ _ _ Hread Hpre) as Hw.
  unfold window in Hw. apply lookup_take_Some in Hw as [Hd Hk].
  rewrite lookup_drop in Hd.
  rewrite chunkSkip_exact in Hd.
  2:{ apply in_range_below_workers; [exact Hpos| |exact Hi].
      unfold Int64.max_signed in *. lia. }
  split; [exact Hd|]. nia.
Qed.

Lemma uncovered_tail_witness :
  runParallel
    (collectionStore (replicate (Z.to_nat 1000001) (Decodable sampleDoc)) noFault noFault)
    read_v4_config 1000001
  < 1000001.
Proof.
  apply (uncovered_tail_is_never_read
           (replicate (Z.to_nat 1000001) (Decodable sampleDoc))
           (collectionStore (replicate (Z.to_nat 1000001) (Decodable sampleDoc))
              noFault noFault)
           read_v4_config 1000001).
  - apply collectionStore_honours.
  - rewrite length_replicate, Z2Nat.id; lia.
  - vm_compute. discriminate.
  - reflexivity.
  - reflexivity.
Defined.

(** ** The 250,000-document scenario *)

Lemma decodedCount_all items :
  Forall (fun it => isDecodable it = true) items ->
  decodedCount items = Z.of_nat (length items).
Proof.
  intros H. unfold decodedCount. f_equal. f_equal.
  induction H as [|it items Hit _ IH]; [reflexivity|].
  rewrite filter_cons_True by exact Hit. f_equal. exact IH.
Qed.

Lemma window_decodable docs skip limit :
  Forall (fun it => isDecodable it = true) docs ->
  Forall (fun it => isDecodable it = true) (window docs skip limit).
Proof. intros H. unfold window. apply Forall_take, Forall_drop, H. Qed.

(** Over a store without faults whose documents all decode, a worker with
    work counts its whole window. *)
Lemma faultless_contribution docs cfg totalCount workerID :
  Forall (fun it => isDecodable it = true) docs ->
  chunkSkip cfg workerID < totalCount ->
  contribution (worker (collectionStore docs noFault noFault) cfg totalCount workerID)
  = Z.of_nat (Z.to_nat (chunkSize cfg)
              `min` (length docs - Z.to_nat (chunkSkip cfg workerID)))%nat.
Proof.
  intros Hdocs Hlt. rewrite worker_contribution_cases.
  destruct (Z.leb_spec totalCount (chunkSkip cfg workerID)); [lia|].
  simpl. rewrite decodedCount_all by (apply window_decodable, Hdocs).
  rewrite window_length. reflexivity.
Qed.

Lemma scenario_skips i :
  (i < 10)%nat -> chunkSkip read_v4_config i = Z.of_nat i * 100000.
Proof.
  intros Hi. apply chunkSkip_exact. simpl.
  unfold Int64.in_range, Int64.min_signed, Int64.max_signed. lia.
Qed.

Example read_v4_skips :
  map (chunkSkip read_v4_config) (seq 0 10)
  = [0; 100000; 200000; 300000; 400000; 500000; 600000; 700000; 800000; 900000].
Proof. reflexivity. Qed.

Lemma scenario_busy docs i :
  Z.of_nat (length docs) = 250000 ->
  Forall (fun it => isDecodable it = true) docs ->
  (i < 3)%nat ->
  requestsOf (worker (collectionStore docs noFault noFault) read_v4_config 250000 i)
  = [(Z.of_nat i * 100000, 100000)]
  /\ contribution (worker (collectionStore docs noFault noFault) read_v4_config 250000 i)
     = Z.min 100000 (250000 - Z.of_nat i * 100000).
Proof.
  intros Hlen Hdocs Hi. split.
  - rewrite worker_requests by (rewrite scenario_skips; lia).
    rewrite scenario_skips by lia. reflexivity.
  - rewrite faultless_contribution by (exact Hdocs || (rewrite scenario_skips; lia)).
    rewrite scenario_skips by lia. simpl chunkSize. lia.
Qed.

Lemma scenario_idle (store : Store) i :
  (3 <= i < 10)%nat -> worker store read_v4_config 250000 i = [AWgDone].
Proof. intros Hi. apply worker_idle. rewrite scenario_skips by lia. lia. Qed.

Lemma scenario_total docs :
  Z.of_nat (length docs) = 250000 ->
  Forall (fun it => isDecodable it = true) docs ->
  runParallel (collectionStore docs noFault noFault) read_v4_config 250000 = 250000.
Proof.
  intros Hlen Hdocs.
  destruct (scenario_busy docs 0 Hlen Hdocs) as [_ Hc0]; [lia|].
  destruct (scenario_busy docs 1 Hlen Hdocs) as [_ Hc1]; [lia|].
  destruct (scenario_busy docs 2 Hlen Hdocs) as [_ Hc2]; [lia|].
  unfold runParallel. cbn [numWorkers read_v4_config sumContributions].
  rewrite Hc0, Hc1, Hc2, !scenario_idle by lia. reflexivity.
Qed.

(** C5, as stated, fails: ten workers of 100,000 cover a million positions,
    so over 250,000 matching documents served without fault the workers read
    100,000 + 100,000 + 50,000 records, and the total read is the count. *)
Lemma scenario_total_equals_count :
  runParallel
    (collectionStore (replicate (Z.to_nat 250000) (Decodable sampleDoc)) noFault noFault)
    read_v4_config 250000
  = 250000.
Proof.
  apply scenario_total.
  - rewrite length_replicate, Z2Nat.id; lia.
  - apply Forall_replicate. reflexivity.
Qed.

(** C5, amended. With 250,000 matching documents, ten workers and chunks of
    100,000: workers 0 and 1 request (skip 0, limit 100000) and (skip 100000,
    limit 100000) and read 100,000 records each; worker 2 requests (skip
    200000, limit 100000) and reads the 50,000 that are left; workers 3 to 9
    only run their [wg.Done()]; and the total read equals the count. *)
Theorem scenario_250k_is_fully_covered (docs : list Item) :
  Z.of_nat (length docs) = 250000 ->
  Forall (fun it => isDecodable it = true) docs ->
  requestsOf (worker (collectionStore docs noFault noFault) read_v4_config 250000 0)
  = [(0, 100000)]
  /\ contribution (worker (collectionStore docs noFault noFault) read_v4_config 250000 0)
     = 100000
  /\ requestsOf (worker (collectionStore docs noFault noFault) read_v4_config 250000 1)
     = [(100000, 100000)]
  /\ contribution (worker (collectionStore docs noFault noFault) read_v4_config 250000 1)
     = 100000
  /\ requestsOf (worker (collectionStore docs noFault noFault) read_v4_config 250000 2)
     = [(200000, 100000)]
  /\ contribution (worker (collectionStore docs noFault noFault) read_v4_config 250000 2)
     = 50000
  /\ (forall i, (3 <= i < 10)%nat ->
        worker (collectionStore docs noFault noFault) read_v4_config 250000 i = [AWgDone])
  /\ runParallel (collectionStore docs noFault noFault) read_v4_config 250000 = 250000.
Proof.
  intros Hlen Hdocs.
  destruct (scenario_busy docs 0 Hlen Hdocs) as [Hq0 Hc0]; [lia|].
  destruct (scenario_busy docs 1 Hlen Hdocs) as [Hq1 Hc1]; [lia|].
  destruct (scenario_busy docs 2 Hlen Hdocs) as [Hq2 Hc2]; [lia|].
  split; [exact Hq0|]. split; [exact Hc0|].
  split; [exact Hq1|]. split; [exact Hc1|].
  split; [exact Hq2|]. split; [exact Hc2|].
  split; [intros i Hi; apply scenario_idle; exact Hi|].
  apply scenario_total; assumption.
Qed.

Lemma scenario_250k_witness :
  contribution
    (worker
       (collectionStore (replicate (Z.to_nat 250000) (Decodable sampleDoc)) noFault noFault)
       read_v4_config 250000 2)
  = 50000.
Proof.
  apply (scenario_250k_is_fully_covered (replicate (Z.to_nat 250000) (Decodable sampleDoc))).
  - rewrite length_replicate, Z2Nat.id; lia.
  - apply Forall_replicate. reflexivity.
Defined.

(** ** Failures *)

Lemma readLoop_corrupt pre e post n :
  Forall (fun it => isDecodable it = true) pre ->
  readLoop (pre ++ Corrupt e :: post) n = Panicked e.
Proof.
  intros H. revert n. induction H as [|it pre Hit _ IH]; intros n; simpl.
  - reflexivity.
  - destruct it; [apply IH|discriminate].
Qed.

Lemma cursorAll_corrupt pre e post err :
  Forall (fun it => isDecodable it = true) pre ->
  cursorAll (pre ++ Corrupt e :: post) err = inl e.
Proof.
  intros H. induction H as [|it pre Hit _ IH]; simpl.
  - reflexivity.
  - destruct it; [rewrite IH; reflexivity|discriminate].
Qed.

Lemma worker_logs_cursor store cfg totalCount workerID cursor :
  chunkSkip cfg workerID < totalCount ->
  Aggregate store (chunkSkip cfg workerID) (chunkSize cfg) = inr cursor ->
  logsOf (worker store cfg totalCount workerID) =
  omap (fun it => match it with
                  | Corrupt e => Some (WorkerDecodeError workerID e)
                  | Decodable _ => None
                  end) (records cursor)
  ++ match cursorErr cursor with
     | Some e => [WorkerCursorError workerID e]
     | None => []
     end
  ++ [WorkerDone workerID (decodedCount (records cursor))].
Proof.
  intros Hlt Hagg. unfold worker, workerBody.
  destruct (Z.leb_spec totalCount (chunkSkip cfg workerID)); [lia|].
  rewrite Hagg.
  pose proof (readChunk_spec workerID (records cursor) 0) as (Hn & _).
  pose proof (readChunk_logs workerID (records cursor) 0) as Hl.
  destruct (readChunk workerID (records cursor) 0) as [acts n]. simpl in Hn, Hl.
  subst n. rewrite logsOf_app. cbn [logsOf omap list_omap].
  rewrite !logsOf_app, Hl, Z.add_0_l.
  destruct (cursorErr cursor); simpl; rewrite ?app_nil_r; reflexivity.
Qed.

(** C7, as stated, fails on decode errors: the worker's loop says
    [continue]. Over three records of which the second does not decode, the
    worker iterates all three, logs one decode error, and adds 2 (the records
    that decoded), not the 1 it had counted when the error came. *)
Lemma decode_error_does_not_end_worker :
  readsOf
    (worker
       (collectionStore [Decodable sampleDoc; Corrupt "bad"; Decodable sampleDoc]
          noFault noFault)
       read_v4_config 3 0)
  = [Decodable sampleDoc; Corrupt "bad"; Decodable sampleDoc]
  /\ logsOf
       (worker
          (collectionStore [Decodable sampleDoc; Corrupt "bad"; Decodable sampleDoc]
             noFault noFault)
          read_v4_config 3 0)
     = [WorkerDecodeError 0 "bad"; WorkerDone 0 2]
  /\ contribution
       (worker
          (collectionStore [Decodable sampleDoc; Corrupt "bad"; Decodable sampleDoc]
             noFault noFault)
          read_v4_config 3 0)
     = 2.
Proof. repeat split; vm_compute; reflexivity. Qed.

(** C7, amended. In the parallel strategy a worker whose request fails logs
    the error and ends, adding nothing; a record that fails to decode is
    logged and skipped, and the worker goes on to the end of its cursor and
    adds the number of records that decoded; a cursor error is logged and the
    count so far is still added. What a worker does depends on the answer to
    its own request only, and whatever the failures the run can be completed
    and the coordinator returns. In every single-threaded strategy the first
    record that fails to decode aborts the run with that error. *)
Theorem worker_failures_stay_local_and_decode_errors_abort_single_runs :
  (forall store cfg totalCount i e,
     chunkSkip cfg i < totalCount ->
     Aggregate store (chunkSkip cfg i) (chunkSize cfg) = inl e ->
     worker store cfg totalCount i
     = [ARequest (chunkSkip cfg i) (chunkSize cfg);
        ALog (WorkerRequestError i e); AWgDone])
  /\ (forall store cfg totalCount i cursor,
        chunkSkip cfg i < totalCount ->
        Aggregate store (chunkSkip cfg i) (chunkSize cfg) = inr cursor ->
        readsOf (worker store cfg totalCount i) = records cursor
        /\ contribution (worker store cfg totalCount i) = decodedCount (records cursor)
        /\ logsOf (worker store cfg totalCount i) =
           omap (fun it => match it with
                           | Corrupt e => Some (WorkerDecodeError i e)
                           | Decodable _ => None
                           end) (records cursor)
           ++ match cursorErr cursor with
              | Some e => [WorkerCursorError i e]
              | None => []
              end
           ++ [WorkerDone i (decodedCount (records cursor))])
  /\ (forall store store' cfg totalCount i,
        Aggregate store (chunkSkip cfg i) (chunkSize cfg)
        = Aggregate store' (chunkSkip cfg i) (chunkSize cfg) ->
        worker store cfg totalCount i = worker store' cfg totalCount i)
  /\ (forall store cfg totalCount schedule st,
        run store cfg totalCount schedule initial = Some st ->
        exists schedule' st' v,
          run store cfg totalCount (schedule ++ schedule') initial = Some st'
          /\ returned st' = Some v
          /\ v = runParallel store cfg totalCount)
  /\ (forall s pre e post err,
        Forall (fun it => isDecodable it = true) pre ->
        runStrategy s (inr (mkCursor (pre ++ Corrupt e :: post) err)) = Panicked e).
Proof.
  split; [|split; [|split; [|split]]].
  - intros store cfg totalCount i e Hlt Hagg. unfold worker.
    rewrite (workerBody_refused _ _ _ _ e Hlt Hagg). reflexivity.
  - intros store cfg totalCount i cursor Hlt Hagg.
    split; [|split].
    + rewrite worker_reads.
      apply (workerBody_cursor store cfg totalCount i cursor Hlt Hagg).
    + rewrite worker_contribution.
      apply (workerBody_cursor store cfg totalCount i cursor Hlt Hagg).
    + apply worker_logs_cursor; assumption.
  - intros store store' cfg totalCount i Hsame.
    unfold worker, workerBody. rewrite Hsame. reflexivity.
  - intros store cfg totalCount schedule st Hrun.
    apply run_can_return with (st := st). exact Hrun.
  - intros s pre e post err Hpre.
    destruct s; simpl; unfold materializingRead, streamingRead; simpl;
      rewrite ?cursorAll_corrupt, ?readLoop_corrupt by exact Hpre; reflexivity.
Qed.

(** * Further properties of the code *)

(** ** The explain command *)

Lemma explainCmd_keys colName filter opts :
  exists rest,
    map fst (explainCmd colName filter opts) = "find" :: "filter" :: rest
    /\ rest `sublist_of` ["projection"; "limit"; "skip"].
Proof.
  unfold explainCmd. destruct opts as [|[o|] opts].
  - exists []. split; [reflexivity|]. apply sublist_nil_l.
  - destruct o as [[p|] [l|] [s|] b]; simpl; eexists; (split; [reflexivity|]);
      repeat first [apply sublist_nil_l | apply sublist_skip | apply sublist_cons ].
  - exists []. split; [reflexivity|]. apply sublist_nil_l.
Qed.

(** X1. The command [ExplainQuery] sends is built from the first options
    value only: later ones are ignored, and a nil first one means no options
    even when a later one is set. It always starts with find and filter,
    followed by those of projection, limit and skip that are set, in that
    order and each at most once; each carries the value of the option; and a
    batch size is never part of it, so two option values that differ only in
    the batch size are explained by the same command. *)
Theorem explain_command_mirrors_first_options :
  (forall colName filter o rest,
     explainCmd colName filter (Some o :: rest) = explainCmd colName filter [Some o])
  /\ (forall colName filter rest,
        explainCmd colName filter (None :: rest)
        = [("find", CString colName); ("filter", CFilter filter)])
  /\ (forall colName filter opts,
        exists rest,
          map fst (explainCmd colName filter opts) = "find" :: "filter" :: rest
          /\ rest `sublist_of` ["projection"; "limit"; "skip"])
  /\ (forall colName filter opts,
        NoDup (map fst (explainCmd colName filter opts))
        /\ "batchSize" ∉ map fst (explainCmd colName filter opts))
  /\ (forall colName filter o rest v,
        (("projection", v) ∈ explainCmd colName filter (Some o :: rest)
         <-> exists p, Projection o = Some p /\ v = CAny p)
        /\ (("limit", v) ∈ explainCmd colName filter (Some o :: rest)
            <-> exists n, Limit o = Some n /\ v = CInt64 n)
        /\ (("skip", v) ∈ explainCmd colName filter (Some o :: rest)
            <-> exists n, Skip o = Some n /\ v = CInt64 n))
  /\ (forall colName filter p l s b b' rest,
        explainCmd colName filter (Some (mkFindOptions p l s b) :: rest)
        = explainCmd colName filter (Some (mkFindOptions p l s b') :: rest)).
Proof.
  split; [reflexivity|]. split; [reflexivity|].
  split; [exact explainCmd_keys|]. split; [|split; [|reflexivity]].
  - intros colName filter opts.
    destruct (explainCmd_keys colName filter opts) as (rest & -> & Hsub).
    assert (Hnd : NoDup ("find" :: "filter" :: ["projection"; "limit"; "skip"]))
      by (apply (bool_decide_unpack _); vm_compute; reflexivity).
    assert (Hall : "find" :: "filter" :: rest
                   `sublist_of` "find" :: "filter" :: ["projection"; "limit"; "skip"])
      by (do 2 apply sublist_skip; exact Hsub).
    split.
    + eapply sublist_NoDup; eauto.
    + intros Hin. eapply elem_of_sublist in Hin; [|exact Hall].
      rewrite !elem_of_cons, elem_of_nil in Hin.
      intuition discriminate.
  - intros colName filter o rest v. unfold explainCmd.
    destruct o as [[p|] [l|] [s|] b]; simpl;
      rewrite ?elem_of_cons, ?elem_of_nil;
      repeat split;
      try (intros [?|H]; [discriminate|]);
      try (intros (? & ? & ?); discriminate);
      intros; repeat match goal with
              | H : _ \/ _ |- _ => destruct H
              | H : exists _, _ |- _ => destruct H
              | H : _ /\ _ |- _ => destruct H
              | H : False |- _ => destruct H
              | H : (_, _) = (_, _) |- _ => inversion H; clear H; subst
              | H : Some _ = Some _ |- _ => inversion H; clear H; subst
              end; eauto 10; try discriminate.
Qed.

(** [read_v2] reads with a batch size of 1000 but has it explained without:
    the command holds the projection only. *)
Example read_v2_explain_has_no_batch_size :
  map fst (explainCmd "orders" ∅ [Some (read_v2_findOpts (VMap {["userId" := VInt32 1]}))])
  = ["find"; "filter"; "projection"].
Proof. reflexivity. Qed.

(** ** More on the analyzer's output *)

Lemma statsSection_lines r l :
  l ∈ statsSection r ->
  match l with
  | StatsHeader | StatsExecTime _ | StatsDocsExamined _ | StatsKeysExamined _
  | StatsReturned _ | WarnSlowQuery | WarnOverExamined _ => True
  | _ => False
  end.
Proof.
  unfold statsSection.
  destruct (asMap (index r "executionStats")) as [stats|];
    [|intros H; apply elem_of_nil in H; destruct H].
  rewrite !elem_of_app. intros [H|[H|H]].
  - rewrite !elem_of_cons, elem_of_nil in H. intuition (subst; exact I).
  - apply elem_slowQueryLines in H as [-> _]. exact I.
  - apply elem_overExaminedLines in H as (t & n & _ & _ & _ & _ & ->). exact I.
Qed.

Lemma quot_bounds t n :
  0 <= t -> 0 < n -> n * 2 < t ->
  2 <= Z.quot t n <= t /\ n * Z.quot t n <= t < n * (Z.quot t n + 1).
Proof.
  intros Ht Hn Hlt. rewrite Z.quot_div_nonneg by lia.
  pose proof (Z.mul_div_le t n Hn). pose proof (Z.mul_succ_div_gt t n Hn).
  assert (2 <= t / n) by (apply Z.div_le_lower_bound; lia).
  assert (t / n <= t) by (apply Z.div_le_upper_bound; nia).
  lia.
Qed.

(** X2. When the over-examination warning is printed for int64 counts [t]
    examined and [n] returned (with [n * 2] within int64), the factor it
    shows is the integer quotient of [t] by [n], rounded down: it is at least
    2 and [n * ratio <= t < n * (ratio + 1)]. *)
Theorem over_examination_ratio_is_truncated_quotient
    (r stats : gmap string value) (version : string) (t n ratio : Z) :
  index r "executionStats" = VMap stats ->
  index stats "totalDocsExamined" = VInt64 t ->
  index stats "nReturned" = VInt64 n ->
  Int64.in_range t ->
  Int64.in_range (n * 2) ->
  WarnOverExamined ratio ∈ PrintExplainResults r version ->
  ratio = Z.quot t n /\ 2 <= ratio /\ n * ratio <= t < n * (ratio + 1).
Proof.
  intros Hstats Ht Hn Hrt Hfit Hin.
  apply warning_in_PrintExplainResults in Hin as (stats' & E & [H|H]);
    [| |reflexivity].
  { apply elem_slowQueryLines in H as [H _]. discriminate. }
  apply elem_overExaminedLines in H as (t' & n' & Ht' & Hn' & Hpos & Hlt & Hr).
  rewrite Hstats in E. inversion E; subst stats'.
  rewrite Ht in Ht'. rewrite Hn in Hn'. inversion Ht'. inversion Hn'. subst t' n'.
  rewrite Int64Facts.mul_small in Hlt by exact Hfit.
  destruct (quot_bounds t n) as [[H2 Hle] Hb]; [lia..|].
  inversion Hr. subst ratio. unfold Int64.quot.
  rewrite Int64Facts.wrap_small.
  - tauto.
  - unfold Int64.in_range, Int64.min_signed, Int64.max_signed in *. lia.
Qed.

Lemma over_examination_ratio_witness :
  (10 = Z.quot 100 10 /\ 2 <= 10 /\ 10 * 10 <= 100 < 10 * (10 + 1)).
Proof.
  apply (over_examination_ratio_is_truncated_quotient
           (sampleExplain (sampleStats 150 100 10) "COLLSCAN")
           (sampleStats 150 100 10) "read_bad" 100 10 10).
  - reflexivity.
  - reflexivity.
  - reflexivity.
  - unfold Int64.in_range, Int64.min_signed, Int64.max_signed. lia.
  - unfold Int64.in_range, Int64.min_signed, Int64.max_signed. lia.
  - apply list_elem_of_In. vm_compute. do 7 right. left. reflexivity.
Defined.

(** X3. The name of the index is printed exactly when the winning plan's
    stage is IXSCAN and its indexName is a string: no other stage (not even
    FETCH over an index scan) and no other section prints it. *)
Theorem index_name_printed_only_for_ixscan (r : gmap string value)
    (version name : string) :
  IndexUsed name ∈ PrintExplainResults r version <->
  exists qp wp,
    index r "queryPlanner" = VMap qp
    /\ index qp "winningPlan" = VMap wp
    /\ index wp "stage" = VString "IXSCAN"
    /\ index wp "indexName" = VString name.
Proof.
  rewrite elem_PrintExplainResults. unfold planSection. split.
  - intros [H|[H|[H|H]]].
    + discriminate.
    + apply statsSection_lines in H. destruct H.
    + destruct (asMap (index r "queryPlanner")) as [qp|] eqn:Eqp;
        [|apply elem_of_nil in H; destruct H].
      apply elem_of_cons in H as [H|H]; [discriminate|].
      destruct (asMap (index qp "winningPlan")) as [wp|] eqn:Ewp;
        [|apply elem_of_nil in H; destruct H].
      destruct (asString (index wp "stage")) as [stage|] eqn:Est;
        [|apply elem_of_nil in H; destruct H].
      apply elem_of_cons in H as [H|H]; [discriminate|].
      apply asMap_Some in Eqp, Ewp. apply asString_Some in Est.
      exists qp, wp. split; [exact Eqp|]. split; [exact Ewp|].
      unfold stageLines in H.
      destruct (String.eqb_spec stage "COLLSCAN") as [->|_].
      { rewrite !elem_of_cons, elem_of_nil in H. intuition discriminate. }
      destruct (String.eqb_spec stage "IXSCAN") as [->|_].
      { split; [exact Est|].
        apply elem_of_cons in H as [H|H]; [discriminate|].
        destruct (asString (index wp "indexName")) as [name'|] eqn:En;
          [|apply elem_of_nil in H; destruct H].
        apply list_elem_of_singleton in H. inversion H. subst name'.
        apply asString_Some. exact En. }
      destruct (String.eqb_spec stage "FETCH") as [->|_].
      { rewrite !elem_of_cons, elem_of_nil in H. intuition discriminate. }
      apply elem_of_nil in H. destruct H.
    + rewrite !elem_of_cons, elem_of_nil in H. intuition discriminate.
  - intros (qp & wp & Eqp & Ewp & Est & En). right. right. left.
    rewrite Eqp. simpl asMap. cbv iota. rewrite Ewp. simpl asMap. cbv iota.
    rewrite Est. simpl asString. cbv iota. unfold stageLines. simpl String.eqb.
    cbv iota. rewrite En. simpl.
    rewrite !elem_of_cons. tauto.
Qed.

Lemma elem_reportMetrics l er duration recordsRead memory version :
  l ∈ reportMetrics er duration recordsRead memory version <->
  exists r stats,
    er = Some r
    /\ index r "executionStats" = VMap stats
    /\ l ∈ PrintMetrics
             (mkQueryMetrics duration recordsRead memory (parseExecutionStats stats))
             version.
Proof.
  unfold reportMetrics. split.
  - destruct er as [r|]; [|intros H; apply elem_of_nil in H; destruct H].
    destruct (asMap (index r "executionStats")) as [stats|] eqn:E;
      [|intros H; apply elem_of_nil in H; destruct H].
    apply asMap_Some in E. eauto.
  - intros (r & stats & -> & E & H). rewrite E. exact H.
Qed.

(** X4. What the report after a run shows. The metrics block (duration,
    records, memory) is printed only when the explain command succeeded and
    its result has an executionStats document; the MongoDB statistics inside
    it only when at least one of the four counters is an int64; and the
    efficiency ratio only when totalDocsExamined is an int64 above zero,
    whatever the other fields are. *)
Theorem report_sections_depend_on_explain
    (er : option (gmap string value)) (duration recordsRead memory : Z)
    (version : string) :
  (MetricsHeader version ∈ reportMetrics er duration recordsRead memory version
   <-> exists r stats, er = Some r /\ index r "executionStats" = VMap stats)
  /\ (MongoStatsHeader ∈ reportMetrics er duration recordsRead memory version
      <-> exists r stats k n,
            er = Some r
            /\ index r "executionStats" = VMap stats
            /\ k ∈ ["executionTimeMillis"; "totalDocsExamined";
                    "totalKeysExamined"; "nReturned"]
            /\ index stats k = VInt64 n)
  /\ ((exists p, EfficiencyRatio p ∈ reportMetrics er duration recordsRead memory version)
      <-> exists r stats t,
            er = Some r
            /\ index r "executionStats" = VMap stats
            /\ index stats "totalDocsExamined" = VInt64 t
            /\ 0 < t).
Proof.
  split; [|split].
  - rewrite elem_reportMetrics. split.
    + intros (r & stats & He & E & _). eauto.
    + intros (r & stats & He & E). exists r, stats. split; [exact He|].
      split; [exact E|]. unfold PrintMetrics. rewrite !elem_of_app. left.
      apply elem_of_cons. tauto.
  - rewrite elem_reportMetrics. split.
    + intros (r & stats & He & E & H). exists r, stats.
      unfold PrintMetrics in H. rewrite !elem_of_app in H.
      destruct H as [H|[H|H]].
      * rewrite !elem_of_cons, elem_of_nil in H. intuition discriminate.
      * simpl in H. rewrite parseExecutionStats_spec in H. unfold int64Field in H.
        destruct (asInt64 (index stats "executionTimeMillis")) as [n|] eqn:E1.
        { apply asInt64_Some in E1. exists "executionTimeMillis", n.
          rewrite !elem_of_cons. tauto. }
        destruct (asInt64 (index stats "totalDocsExamined")) as [n|] eqn:E2.
        { apply asInt64_Some in E2. exists "totalDocsExamined", n.
          rewrite !elem_of_cons. tauto. }
        destruct (asInt64 (index stats "totalKeysExamined")) as [n|] eqn:E3.
        { apply asInt64_Some in E3. exists "totalKeysExamined", n.
          rewrite !elem_of_cons. tauto. }
        destruct (asInt64 (index stats "nReturned")) as [n|] eqn:E4.
        { apply asInt64_Some in E4. exists "nReturned", n.
          rewrite !elem_of_cons. tauto. }
        apply elem_of_nil in H. destruct H.
      * apply list_elem_of_singleton in H. discriminate.
    + intros (r & stats & k & n & He & E & Hk & Hn). exists r, stats.
      split; [exact He|]. split; [exact E|].
      assert (Hsome : exists es, parseExecutionStats stats = Some es).
      { rewrite parseExecutionStats_spec. unfold int64Field.
        rewrite !elem_of_cons, elem_of_nil in Hk.
        destruct Hk as [->|[->|[->|[->|[]]]]]; rewrite Hn; simpl;
          repeat match goal with
                 | |- context [asInt64 ?v] => destruct (asInt64 v)
                 end; eauto. }
      destruct Hsome as [es Hes].
      unfold PrintMetrics. rewrite !elem_of_app. right. left.
      cbn [Stats]. rewrite Hes. apply elem_of_app. left.
      apply elem_of_cons. tauto.
  - split.
    + intros (p & H). apply elem_reportMetrics in H as (r & stats & He & E & H).
      apply efficiency_in_PrintMetrics in H as (es & Hes & H); [|eauto].
      simpl in Hes. apply elem_efficiencyLines in H as [Hpos _].
      rewrite parseExecutionStats_spec in Hes. unfold int64Field in Hes.
      destruct (asInt64 (index stats "totalDocsExamined")) as [t|] eqn:Et.
      * apply asInt64_Some in Et. exists r, stats, t.
        repeat match type of Hes with
               | context [asInt64 ?v] => destruct (asInt64 v)
               end; inversion Hes; subst es; simpl in Hpos; tauto.
      * repeat match type of Hes with
               | context [asInt64 ?v] => destruct (asInt64 v)
               end; inversion Hes; subst es; simpl in Hpos; lia.
    + intros (r & stats & t & He & E & Ht & Hpos).
      assert (Hsome : exists es, parseExecutionStats stats = Some es
                                 /\ TotalDocsExamined es = t).
      { rewrite parseExecutionStats_spec. unfold int64Field. rewrite Ht. simpl.
        repeat match goal with
               | |- context [asInt64 ?v] => destruct (asInt64 v)
               end; eauto. }
      destruct Hsome as (es & Hes & Hd). exists (efficiency es).
      apply elem_reportMetrics. exists r, stats. split; [exact He|].
      split; [exact E|]. apply efficiency_in_PrintMetrics; [eauto|].
      exists es. split; [exact Hes|]. apply elem_efficiencyLines. rewrite Hd. tauto.
Qed.

(** ** The read loops against each other *)

Lemma cursorAll_readLoop items err n :
  match cursorAll items err with
  | inl e =>
      readLoop items n = Panicked e
      \/ (exists m, readLoop items n = Completed m) /\ err = Some e
  | inr results =>
      readLoop items n = Completed (n + Z.of_nat (length results))
      /\ err = None /\ length results = length items
  end.
Proof.
  revert n. induction items as [|[doc|e] rest IH]; intros n; cbn [cursorAll readLoop].
  - destruct err as [e|]; [right; eauto|].
    split; [f_equal; rewrite length_nil; lia|tauto].
  - specialize (IH (n + 1)). destruct (cursorAll rest err) as [e|results].
    + exact IH.
    + destruct IH as (-> & -> & Hlen). rewrite !length_cons, Hlen.
      split; [f_equal; lia|tauto].
  - left. reflexivity.
Qed.

Lemma materializing_is_streaming opened :
  materializingRead opened = streamingRead opened.
Proof.
  destruct opened as [e|cursor]; [reflexivity|]. simpl.
  pose proof (cursorAll_readLoop (records cursor) (cursorErr cursor) 0) as H.
  destruct (cursorAll (records cursor) (cursorErr cursor)) as [e|results].
  - destruct H as [->|[[m ->] ->]]; reflexivity.
  - destruct H as (-> & -> & _). reflexivity.
Qed.

Lemma single_threaded_strategies_agree_aux s opened :
  runStrategy s opened = streamingRead opened.
Proof. destruct s; simpl; [apply materializing_is_streaming|reflexivity..]. Qed.

(** X5. On the same cursor every single-threaded strategy gives the same
    outcome: [read_bad], which buffers everything with [cursor.All], reports
    the count the streaming loops of [read_v1], [read_v2], [read_v3] and
    [read_v5] reach, and it panics exactly when they do, with the same error
    (the first record that fails to decode, else the cursor's error). *)
Theorem single_threaded_strategies_agree (s s' : Strategy) (opened : Err + Cursor) :
  runStrategy s opened = runStrategy s' opened.
Proof.
  rewrite (single_threaded_strategies_agree_aux s),
    (single_threaded_strategies_agree_aux s'). reflexivity.
Qed.

Lemma readLoop_completed items n m :
  readLoop items n = Completed m <->
  Forall (fun it => isDecodable it = true) items /\ m = n + Z.of_nat (length items).
Proof.
  revert n. induction items as [|[doc|e] rest IH]; intros n; cbn [readLoop].
  - rewrite length_nil. split.
    + intros H. inversion H. split; [constructor|lia].
    + intros [_ ->]. f_equal. lia.
  - rewrite IH, length_cons. split.
    + intros [H ->]. split; [constructor; [reflexivity|exact H]|lia].
    + intros [H ->]. inversion H. split; [assumption|lia].
  - split; [discriminate|]. intros [H _]. inversion H. discriminate.
Qed.

(** X6. A single-threaded run completes exactly when the read handle opened,
    every record the cursor yielded decoded and the cursor ended without
    error; the count it then reports is the number of records iterated,
    neither more nor less. *)
Theorem completed_run_counts_every_record (s : Strategy) (opened : Err + Cursor)
    (recordCount : Z) :
  runStrategy s opened = Completed recordCount <->
  exists cursor,
    opened = inr cursor
    /\ Forall (fun it => isDecodable it = true) (records cursor)
    /\ cursorErr cursor = None
    /\ recordCount = Z.of_nat (length (records cursor)).
Proof.
  rewrite (single_threaded_strategies_agree_aux s opened).
  unfold streamingRead. split.
  - destruct opened as [e|cursor]; [discriminate|].
    destruct (readLoop (records cursor) 0) as [e|m] eqn:Hloop; [discriminate|].
    destruct (cursorErr cursor) as [e|] eqn:Herr; [discriminate|].
    intros H. inversion H. subst m.
    apply readLoop_completed in Hloop as [Hall ->].
    exists cursor. split; [reflexivity|]. split; [exact Hall|].
    split; [exact Herr|]. lia.
  - intros (cursor & -> & Hall & Herr & ->).
    rewrite (proj2 (readLoop_completed (records cursor) 0 _) (conj Hall eq_refl)).
    rewrite Herr. f_equal.
Qed.

(** ** What a parallel run covers *)

Lemma decodedCount_app l1 l2 :
  decodedCount (l1 ++ l2) = decodedCount l1 + decodedCount l2.
Proof. unfold decodedCount. rewrite filter_app, length_app. lia. Qed.

Lemma faultless_worker_contribution docs cfg totalCount i :
  totalCount = Z.of_nat (length docs) ->
  0 <= chunkSkip cfg i ->
  contribution (worker (collectionStore docs noFault noFault) cfg totalCount i)
  = decodedCount (window docs (chunkSkip cfg i) (chunkSize cfg)).
Proof.
  intros Hcount Hskip. rewrite worker_contribution_cases.
  destruct (Z.leb_spec totalCount (chunkSkip cfg i)) as [Hle|Hlt].
  - unfold window. rewrite drop_ge by lia. rewrite take_nil. reflexivity.
  - reflexivity.
Qed.

Lemma faultless_sum docs cfg totalCount n :
  totalCount = Z.of_nat (length docs) ->
  0 < chunkSize cfg ->
  Z.of_nat n * chunkSize cfg <= Int64.max_signed ->
  sumContributions (collectionStore docs noFault noFault) cfg totalCount n
  = decodedCount (take (Z.to_nat (Z.of_nat n * chunkSize cfg)) docs).
Proof.
  intros Hcount Hpos. induction n as [|n IH]; intros Hfit.
  - reflexivity.
  - cbn [sumContributions]. rewrite IH by lia.
    assert (Hskip : chunkSkip cfg n = Z.of_nat n * chunkSize cfg).
    { apply chunkSkip_exact.
      unfold Int64.in_range, Int64.min_signed, Int64.max_signed in *. nia. }
    rewrite faultless_worker_contribution by (exact Hcount || (rewrite Hskip; nia)).
    rewrite Hskip, <- decodedCount_app. unfold window.
    rewrite take_take_drop. f_equal. f_equal. nia.
Qed.

Lemma faultless_runParallel docs cfg totalCount :
  totalCount = Z.of_nat (length docs) ->
  totalCount <= Int64.max_signed ->
  0 < chunkSize cfg ->
  Z.of_nat (numWorkers cfg) * chunkSize cfg <= Int64.max_signed ->
  runParallel (collectionStore docs noFault noFault) cfg totalCount
  = decodedCount (take (Z.to_nat (Z.of_nat (numWorkers cfg) * chunkSize cfg)) docs).
Proof.
  intros Hcount Hmax Hpos Hfit. unfold runParallel.
  rewrite faultless_sum by assumption.
  apply Int64Facts.wrap_small.
  pose proof (decodedCount_bounds
                (take (Z.to_nat (Z.of_nat (numWorkers cfg) * chunkSize cfg)) docs)) as Hb.
  rewrite length_take in Hb.
  unfold Int64.in_range, Int64.min_signed, Int64.max_signed in *. lia.
Qed.

(** X7. Over a store that serves every request without fault, the parallel
    run returns the number of decodable documents among the first
    [numWorkers * chunkSize] matching ones: all of them when the chunks reach
    the count, and exactly [numWorkers * chunkSize] when they do not and
    every document decodes. *)
Theorem parallel_run_counts_the_covered_prefix
    (docs : list Item) (cfg : Config) (totalCount : Z) :
  totalCount = Z.of_nat (length docs) ->
  totalCount <= Int64.max_signed ->
  0 < chunkSize cfg ->
  Z.of_nat (numWorkers cfg) * chunkSize cfg <= Int64.max_signed ->
  runParallel (collectionStore docs noFault noFault) cfg totalCount
  = decodedCount (take (Z.to_nat (Z.of_nat (numWorkers cfg) * chunkSize cfg)) docs)
  /\ (totalCount <= Z.of_nat (numWorkers cfg) * chunkSize cfg ->
      runParallel (collectionStore docs noFault noFault) cfg totalCount
      = decodedCount docs)
  /\ (Z.of_nat (numWorkers cfg) * chunkSize cfg <= totalCount ->
      Forall (fun it => isDecodable it = true) docs ->
      runParallel (collectionStore docs noFault noFault) cfg totalCount
      = Z.of_nat (numWorkers cfg) * chunkSize cfg).
Proof.
  intros Hcount Hmax Hpos Hfit.
  pose proof (faultless_runParallel docs cfg totalCount Hcount Hmax Hpos Hfit) as Hrun.
  split; [exact Hrun|]. split.
  - intros Hcover. rewrite Hrun, take_ge by lia. reflexivity.
  - intros Hshort Hall. rewrite Hrun.
    rewrite decodedCount_all by (apply Forall_take, Hall).
    rewrite length_take. lia.
Qed.

Lemma parallel_run_prefix_witness :
  runParallel
    (collectionStore
       [Decodable sampleDoc; Corrupt "bad"; Decodable sampleDoc; Decodable sampleDoc;
        Decodable sampleDoc]
       noFault noFault)
    (mkConfig 2 2) 5
  = 3.
Proof.
  apply (parallel_run_counts_the_covered_prefix
           [Decodable sampleDoc; Corrupt "bad"; Decodable sampleDoc; Decodable sampleDoc;
            Decodable sampleDoc]
           (mkConfig 2 2) 5).
  - reflexivity.
  - vm_compute. discriminate.
  - reflexivity.
  - vm_compute. discriminate.
Defined.

(** X8. When the chunks reach the count and every document decodes, the
    parallel strategy over a faultless store returns what the sequential
    aggregation of [read_v3] and [read_v5] counts on a cursor over the same
    documents. *)
Theorem parallel_matches_sequential_when_covering
    (docs : list Item) (cfg : Config) (totalCount : Z) (s : Strategy) :
  totalCount = Z.of_nat (length docs) ->
  totalCount <= Int64.max_signed ->
  0 < chunkSize cfg ->
  Z.of_nat (numWorkers cfg) * chunkSize cfg <= Int64.max_signed ->
  totalCount <= Z.of_nat (numWorkers cfg) * chunkSize cfg ->
  Forall (fun it => isDecodable it = true) docs ->
  runStrategy s (inr (mkCursor docs None))
  = Completed (runParallel (collectionStore docs noFault noFault) cfg totalCount).
Proof.
  intros Hcount Hmax Hpos Hfit Hcover Hall.
  rewrite faultless_runParallel by assumption.
  rewrite take_ge by lia. rewrite decodedCount_all by exact Hall.
  rewrite single_threaded_strategies_agree_aux. unfold streamingRead. simpl.
  rewrite (proj2 (readLoop_completed docs 0 _) (conj Hall eq_refl)). f_equal.
Qed.

Lemma parallel_matches_sequential_witness :
  runStrategy read_v3
    (inr (mkCursor (replicate (Z.to_nat 250000) (Decodable sampleDoc)) None))
  = Completed
      (runParallel
         (collectionStore (replicate (Z.to_nat 250000) (Decodable sampleDoc))
            noFault noFault)
         read_v4_config 250000).
Proof.
  apply (parallel_matches_sequential_when_covering
           (replicate (Z.to_nat 250000) (Decodable sampleDoc)) read_v4_config 250000 read_v3).
  - rewrite length_replicate, Z2Nat.id; lia.
  - vm_compute. discriminate.
  - reflexivity.
  - vm_compute. discriminate.
  - vm_compute. discriminate.
  - apply Forall_replicate. reflexivity.
Defined.

(** ** The log and the wait group under any scheduler *)

Section SchedulerLog.

Variable store : Store.
Variable cfg : Config.
Variable totalCount : Z.

Lemma workerLogs_S n :
  workerLogs store cfg totalCount (S n)
  = workerLogs store cfg totalCount n ++ logsOf (worker store cfg totalCount n).
Proof.
  unfold workerLogs. rewrite seq_S, map_app, concat_app. simpl.
  rewrite app_nil_r. reflexivity.
Qed.

Lemma workerLogs_mono n m l :
  (n <= m)%nat ->
  l ∈ workerLogs store cfg totalCount n -> l ∈ workerLogs store cfg totalCount m.
Proof.
  intros Hle. induction Hle as [|m _ IH]; [tauto|].
  intros H. rewrite workerLogs_S. apply elem_of_app. left. apply IH, H.
Qed.

Lemma pendingLogs_app ths1 ths2 :
  pendingLogs (ths1 ++ ths2) = pendingLogs ths1 ++ pendingLogs ths2.
Proof. unfold pendingLogs. rewrite map_app, concat_app. reflexivity. Qed.

Lemma pendingLogs_insert (ths : list (list Action)) i a rest :
  ths !! i = Some (a :: rest) ->
  pendingLogs ths ≡ₚ logsOf [a] ++ pendingLogs (<[i := rest]> ths).
Proof.
  revert i. induction ths as [|acts ths IH]; intros [|i] H; simpl in H;
    try discriminate.
  - inversion H. subst acts. unfold pendingLogs. destruct a; reflexivity.
  - unfold pendingLogs in *. simpl. rewrite (IH i H).
    rewrite !app_assoc. f_equiv. apply Permutation_app_comm.
Qed.

Lemma logInvariant_initial : logInvariant store cfg totalCount initial.
Proof. unfold logInvariant. reflexivity. Qed.

Lemma logInvariant_step t st st' :
  logInvariant store cfg totalCount st ->
  step store cfg totalCount t st = Some st' ->
  logInvariant store cfg totalCount st'.
Proof.
  unfold logInvariant. intros Hinv Hstep.
  destruct t as [|workerID]; simpl in Hstep.
  - unfold coordinatorStep in Hstep.
    destruct (returned st); [discriminate|].
    destruct (length (threads st) <? numWorkers cfg)%nat.
    + inversion Hstep; subst st'; clear Hstep. simpl.
      rewrite length_app, Nat.add_1_r, workerLogs_S, pendingLogs_app.
      unfold pendingLogs at 2. simpl. rewrite app_nil_r, app_assoc.
      f_equiv. exact Hinv.
    + destruct (wg st =? 0); [|discriminate].
      inversion Hstep; subst st'; clear Hstep. exact Hinv.
  - unfold workerStep in Hstep.
    destruct (threads st !! workerID) as [[|a rest]|] eqn:Hth; try discriminate.
    inversion Hstep; subst st'; clear Hstep.
    pose proof (pendingLogs_insert (threads st) workerID a rest Hth) as Hp.
    rewrite Hp in Hinv.
    destruct a; simpl in *; rewrite length_insert; try exact Hinv.
    rewrite <- app_assoc. exact Hinv.
Qed.

Lemma logInvariant_run schedule st0 st :
  logInvariant store cfg totalCount st0 ->
  run store cfg totalCount schedule st0 = Some st ->
  logInvariant store cfg totalCount st.
Proof.
  revert st0. induction schedule as [|t schedule IH]; intros st0 Hinv Hrun; simpl in Hrun.
  - inversion Hrun. subst. exact Hinv.
  - destruct (step store cfg totalCount t st0) as [st1|] eqn:Hstep; [|discriminate].
    apply (IH st1); [eapply logInvariant_step; eauto|exact Hrun].
Qed.

Lemma pendingLogs_all_done (ths : list (list Action)) :
  (forall acts, acts ∈ ths -> acts = []) -> pendingLogs ths = [].
Proof.
  induction ths as [|acts ths IH]; intros H; [reflexivity|].
  unfold pendingLogs in *. simpl.
  rewrite (H acts) by (apply elem_of_cons; tauto). simpl.
  apply IH. intros acts' Hin. apply H. apply elem_of_cons. tauto.
Qed.

Lemma sumZ_perm {A} (f : A -> Z) l1 l2 : l1 ≡ₚ l2 -> sumZ f l1 = sumZ f l2.
Proof. induction 1; simpl; lia. Qed.

Lemma decode_error_lines_report_nothing workerID items :
  sumZ doneCount
    (omap (fun it => match it with
                     | Corrupt e => Some (WorkerDecodeError workerID e)
                     | Decodable _ => None
                     end) items) = 0.
Proof. induction items as [|[doc|e] rest IH]; simpl; [reflexivity|exact IH|exact IH]. Qed.

(** The count in a worker's completion line is what it added. *)
Lemma worker_reports_its_contribution workerID :
  sumZ doneCount (logsOf (worker store cfg totalCount workerID))
  = contribution (worker store cfg totalCount workerID).
Proof.
  destruct (Z.le_gt_cases totalCount (chunkSkip cfg workerID)) as [Hle|Hlt].
  - rewrite worker_idle by exact Hle. reflexivity.
  - destruct (Aggregate store (chunkSkip cfg workerID) (chunkSize cfg))
      as [e|cursor] eqn:Hagg.
    + unfold worker. rewrite (workerBody_refused _ _ _ _ e) by (lia || exact Hagg).
      reflexivity.
    + rewrite worker_logs_cursor with (cursor := cursor) by (lia || exact Hagg).
      rewrite worker_contribution_cases.
      destruct (Z.leb_spec totalCount (chunkSkip cfg workerID)); [lia|].
      rewrite Hagg, !sumZ_app, decode_error_lines_report_nothing.
      destruct (cursorErr cursor); simpl; lia.
Qed.

Lemma workerLogs_report_sum n :
  sumZ doneCount (workerLogs store cfg totalCount n)
  = sumContributions store cfg totalCount n.
Proof.
  induction n as [|n IH]; [reflexivity|].
  rewrite workerLogs_S, sumZ_app, IH, worker_reports_its_contribution. reflexivity.
Qed.

Lemma doneOnce_initial : doneOnce initial.
Proof. intros acts H. apply elem_of_nil in H. destruct H. Qed.

Lemma doneOnce_step t st st' :
  invariant store cfg totalCount st -> doneOnce st ->
  step store cfg totalCount t st = Some st' -> doneOnce st'.
Proof.
  intros (_ & _ & _ & Hlast & _) Hone Hstep.
  destruct t as [|workerID]; simpl in Hstep.
  - unfold coordinatorStep in Hstep.
    destruct (returned st); [discriminate|].
    destruct (length (threads st) <? numWorkers cfg)%nat.
    + inversion Hstep; subst st'; clear Hstep. intros acts. simpl.
      intros [H|H]%elem_of_app; [auto|].
      apply list_elem_of_singleton in H as ->. right. apply worker_dones.
    + destruct (wg st =? 0); [|discriminate].
      inversion Hstep; subst st'; clear Hstep. exact Hone.
  - unfold workerStep in Hstep.
    destruct (threads st !! workerID) as [[|a rest]|] eqn:Hth; try discriminate.
    inversion Hstep; subst st'; clear Hstep.
    assert (Hin : a :: rest ∈ threads st) by (apply list_elem_of_lookup; eauto).
    assert (Hrest : rest = [] \/ donesOf rest = 1).
    { destruct rest as [|b rest]; [tauto|]. right.
      destruct (Hone _ Hin) as [Hnil|H1]; [discriminate|].
      destruct (Hlast _ Hin) as [Hnil|Hl]; [discriminate|].
      change (last (a :: b :: rest)) with (last (b :: rest)) in Hl.
      apply donesOf_last in Hl.
      change (donesOf (a :: b :: rest)) with (doneOf a + donesOf (b :: rest)) in H1.
      destruct a; cbn [doneOf] in H1; lia. }
    intros acts Hacts.
    assert (Hacts' : acts ∈ <[workerID := rest]> (threads st))
      by (destruct a; exact Hacts).
    apply elem_of_insert_inv in Hacts' as [->|Hacts']; [exact Hrest|auto].
Qed.

Lemma invariants_run schedule st :
  run store cfg totalCount schedule initial = Some st ->
  invariant store cfg totalCount st /\ doneOnce st.
Proof.
  assert (H : forall st0,
             invariant store cfg totalCount st0 -> doneOnce st0 ->
             run store cfg totalCount schedule st0 = Some st ->
             invariant store cfg totalCount st /\ doneOnce st).
  { induction schedule as [|t schedule IH]; intros st0 Hinv Hone Hrun; simpl in Hrun.
    - inversion Hrun. subst. tauto.
    - destruct (step store cfg totalCount t st0) as [st1|] eqn:Hstep; [|discriminate].
      apply (IH st1); [eapply invariant_step; eauto|eapply doneOnce_step; eauto|exact Hrun]. }
  apply H; [apply invariant_initial|apply doneOnce_initial].
Qed.

Lemma dones_count_running (ths : list (list Action)) :
  (forall acts, acts ∈ ths -> acts = [] \/ donesOf acts = 1) ->
  sumZ donesOf ths
  = Z.of_nat (length (filter (fun acts => isRunning acts = true) ths)).
Proof.
  induction ths as [|acts ths IH]; intros H; [reflexivity|].
  cbn [sumZ foldr]. fold (sumZ donesOf ths).
  rewrite IH by (intros acts' Hin; apply H; apply elem_of_cons; tauto).
  destruct (H acts) as [->|H1]; [apply elem_of_cons; tauto| |].
  - rewrite filter_cons_False by discriminate. reflexivity.
  - destruct acts as [|a acts]; [discriminate|].
    rewrite filter_cons_True by reflexivity. rewrite length_cons, H1. lia.
Qed.

End SchedulerLog.

(** X9. Whatever the schedule, the log of a parallel run holds only lines
    of the run's workers; once the coordinator has returned it holds every
    line of every worker, each exactly once, and the counts of the completion
    lines add up to the value returned (when the sum fits in an int64). *)
Theorem log_holds_exactly_the_workers_lines
    (store : Store) (cfg : Config) (totalCount : Z)
    (schedule : list Tid) (st : State) :
  run store cfg totalCount schedule initial = Some st ->
  (forall l, l ∈ logged st -> l ∈ workerLogs store cfg totalCount (numWorkers cfg))
  /\ (forall v, returned st = Some v ->
        logged st ≡ₚ workerLogs store cfg totalCount (numWorkers cfg)
        /\ (Int64.in_range (sumContributions store cfg totalCount (numWorkers cfg)) ->
            sumZ doneCount (logged st) = v)).
Proof.
  intros Hrun.
  pose proof (invariant_run store cfg totalCount schedule initial st
                (invariant_initial store cfg totalCount) Hrun) as Hinv.
  pose proof (logInvariant_run store cfg totalCount schedule initial st
                (logInvariant_initial store cfg totalCount) Hrun) as Hlog.
  unfold logInvariant in Hlog. split.
  - intros l Hl. apply (workerLogs_mono store cfg totalCount (length (threads st))).
    + apply Hinv.
    + rewrite <- Hlog. apply elem_of_app. tauto.
  - intros v Hv.
    destruct (returned_value store cfg totalCount st v Hinv Hv) as (Hlen & Hdone & ->).
    rewrite (pendingLogs_all_done _ Hdone), app_nil_r, Hlen in Hlog.
    split; [exact Hlog|]. intros Hfit.
    rewrite (sumZ_perm doneCount _ _ Hlog), workerLogs_report_sum.
    unfold runParallel. symmetry. apply Int64Facts.wrap_small. exact Hfit.
Qed.

Lemma log_holds_witness :
  exists st,
    run smallStore read_v4_config 3 smallSchedule initial = Some st
    /\ sumZ doneCount (logged st) = 3.
Proof.
  eassert (Hrun : run smallStore read_v4_config 3 smallSchedule initial = Some _)
    by (vm_compute; reflexivity).
  eexists. split; [exact Hrun|].
  destruct (log_holds_exactly_the_workers_lines _ _ _ _ _ Hrun) as (_ & H).
  destruct (H 3 eq_refl) as (_ & Hsum).
  apply Hsum. vm_compute. split; discriminate.
Defined.

(** X10. In every state a run can reach, the wait-group counter is the
    number of goroutines started and not yet finished: it lies between zero
    and [numWorkers], so no [wg.Done()] ever drives it below zero. *)
Theorem wait_group_counts_unfinished_goroutines
    (store : Store) (cfg : Config) (totalCount : Z)
    (schedule : list Tid) (st : State) :
  run store cfg totalCount schedule initial = Some st ->
  wg st = Z.of_nat (length (unfinished st))
  /\ 0 <= wg st <= Z.of_nat (numWorkers cfg).
Proof.
  intros Hrun.
  destruct (invariants_run store cfg totalCount schedule st Hrun) as [Hinv Hone].
  pose proof Hinv as (Hlen & Hwg & _).
  assert (Hcount : wg st = Z.of_nat (length (unfinished st))).
  { rewrite Hwg. apply dones_count_running. exact Hone. }
  split; [exact Hcount|]. rewrite Hcount. unfold unfinished.
  pose proof (length_filter (fun acts => isRunning acts = true) (threads st)). lia.
Qed.

Lemma wait_group_witness :
  exists st,
    run smallStore read_v4_config 3
      [Coordinator; Coordinator; Worker 1; Coordinator; Worker 0] initial = Some st
    /\ wg st = 2.
Proof.
  eassert (Hrun : run smallStore read_v4_config 3
                    [Coordinator; Coordinator; Worker 1; Coordinator; Worker 0] initial
                  = Some _)
    by (vm_compute; reflexivity).
  eexists. split; [exact Hrun|].
  destruct (wait_group_counts_unfinished_goroutines _ _ _ _ _ Hrun) as [Hwg _].
  rewrite Hwg. reflexivity.
Defined.

(** ** An empty collection *)

Lemma idle_workers_log_nothing store cfg totalCount n :
  (forall i, (i < n)%nat -> worker store cfg totalCount i = [AWgDone]) ->
  workerLogs store cfg totalCount n = []
  /\ sumContributions store cfg totalCount n = 0.
Proof.
  induction n as [|n IH]; intros Hidle; [split; reflexivity|].
  destruct IH as [Hl Hs]; [intros i Hi; apply Hidle; lia|].
  rewrite workerLogs_S. cbn [sumContributions]. rewrite Hl, Hs, Hidle by lia.
  split; reflexivity.
Qed.

(** X11. When no document matches (the count is zero), every worker of a
    parallel run is idle: none issues a request or reads a record, nothing is
    ever logged, and the coordinator returns 0. *)
Theorem empty_collection_is_read_by_nobody
    (store : Store) (cfg : Config) (totalCount : Z)
    (schedule : list Tid) (st : State) :
  totalCount <= 0 ->
  0 <= chunkSize cfg ->
  Z.of_nat (numWorkers cfg) * chunkSize cfg <= Int64.max_signed ->
  run store cfg totalCount schedule initial = Some st ->
  (forall i, (i < numWorkers cfg)%nat ->
     requestsOf (worker store cfg totalCount i) = []
     /\ readsOf (worker store cfg totalCount i) = [])
  /\ logged st = []
  /\ (forall v, returned st = Some v -> v = 0).
Proof.
  intros Hempty Hpos Hfit Hrun.
  assert (Hidle : forall i, (i < numWorkers cfg)%nat ->
                    worker store cfg totalCount i = [AWgDone]).
  { intros i Hi. apply worker_idle. rewrite chunkSkip_exact.
    - nia.
    - unfold Int64.in_range, Int64.min_signed, Int64.max_signed in *. nia. }
  pose proof (invariant_run store cfg totalCount schedule initial st
                (invariant_initial store cfg totalCount) Hrun) as Hinv.
  split; [|split].
  - intros i Hi. rewrite (Hidle i Hi). split; reflexivity.
  - pose proof (logInvariant_run store cfg totalCount schedule initial st
                  (logInvariant_initial store cfg totalCount) Hrun) as Hlog.
    unfold logInvariant in Hlog.
    destruct (idle_workers_log_nothing store cfg totalCount (length (threads st)))
      as [Hnil _].
    { intros i Hi. apply Hidle. destruct Hinv as [Hlen _]. lia. }
    rewrite Hnil in Hlog. apply Permutation_nil_r in Hlog.
    apply app_eq_nil in Hlog. tauto.
  - intros v Hv.
    destruct (returned_value store cfg totalCount st v Hinv Hv) as (_ & _ & ->).
    unfold runParallel.
    destruct (idle_workers_log_nothing store cfg totalCount (numWorkers cfg) Hidle)
      as [_ ->].
    reflexivity.
Qed.

Lemma empty_collection_witness :
  exists st,
    run (collectionStore [] noFault noFault) (mkConfig 2 100000) 0
      [Coordinator; Worker 0; Coordinator; Worker 1; Coordinator] initial = Some st
    /\ returned st = Some 0 /\ logged st = [].
Proof.
  eassert (Hrun : run (collectionStore [] noFault noFault) (mkConfig 2 100000) 0
                    [Coordinator; Worker 0; Coordinator; Worker 1; Coordinator] initial
                  = Some _)
    by (vm_compute; reflexivity).
  eexists. split; [exact Hrun|]. split; [reflexivity|].
  apply (empty_collection_is_read_by_nobody
           (collectionStore [] noFault noFault) (mkConfig 2 100000) 0
           [Coordinator; Worker 0; Coordinator; Worker 1; Coordinator]).
  - lia.
  - simpl. lia.
  - vm_compute. discriminate.
  - exact Hrun.
Defined.

(** ** The summing loops *)

Lemma sumLoop_spec (k : nat) :
  forall (fuel : nat) (a n s : Z),
    Z.to_nat (n + 1 - a) = k ->
    0 <= a <= n + 1 -> n < Int64.max_signed -> 0 <= s ->
    2 * s + (n + a) * (n + 1 - a) <= 2 * Int64.max_signed ->
    (k < fuel)%nat ->
    exists r, sumLoop fuel a n s = Some r /\ 2 * r = 2 * s + (n + a) * (n + 1 - a).
Proof.
  induction k as [|k IH]; intros fuel a n s Hk Ha Hn Hs Hfit Hfuel;
    (destruct fuel as [|fuel]; [lia|]); cbn [sumLoop].
  - assert (a = n + 1) by lia. subst a.
    destruct (Z.leb_spec (n + 1) n); [lia|]. exists s. split; [reflexivity|lia].
  - destruct (Z.leb_spec a n); [|lia].
    assert (Ha1 : Int64.add a 1 = a + 1).
    { apply Int64Facts.wrap_small.
      unfold Int64.in_range, Int64.min_signed, Int64.max_signed in *. lia. }
    assert (Hsa : Int64.add s a = s + a).
    { apply Int64Facts.wrap_small.
      unfold Int64.in_range, Int64.min_signed, Int64.max_signed in *. nia. }
    rewrite Ha1, Hsa.
    destruct (IH fuel (a + 1) n (s + a)) as (r & Hr & H2);
      [lia|lia|lia|lia|nia|lia|].
    exists r. split; [exact Hr|nia].
Qed.

(** X12. A summing loop from [a] to [n] on int64 ends and returns the closed
    form [(n + a)(n + 1 - a) / 2] whenever that sum fits in an int64: no
    partial sum wraps on the way. It holds in particular for the CPU task of
    the Go service (0 to 50,000,000) and for the sum benchmark (1 to
    100,000,000). *)
Theorem sum_loop_returns_closed_form (fuel : nat) (a n : Z) :
  0 <= a <= n + 1 ->
  n < Int64.max_signed ->
  (n + a) * (n + 1 - a) <= 2 * Int64.max_signed ->
  (Z.to_nat (n + 1 - a) < fuel)%nat ->
  exists r, sumLoop fuel a n 0 = Some r /\ 2 * r = (n + a) * (n + 1 - a).
Proof.
  intros Ha Hn Hfit Hfuel.
  destruct (sumLoop_spec (Z.to_nat (n + 1 - a)) fuel a n 0) as (r & Hr & H2);
    try lia.
  exists r. split; [exact Hr|lia].
Qed.

Lemma cpuHeavyTask_witness :
  exists r, cpuHeavyTask (Z.to_nat 50000002) = Some r /\ r = 1250000025000000.
Proof.
  destruct (sum_loop_returns_closed_form (Z.to_nat 50000002) 0 50000000)
    as (r & Hr & H2).
  - lia.
  - vm_compute. reflexivity.
  - vm_compute. discriminate.
  - lia.
  - exists r. split; [exact Hr|lia].
Defined.

Example sumBenchmark_result :
  exists r, sumBenchmark (Z.to_nat 100000001) = Some r /\ r = 5000000050000000.
Proof.
  destruct (sumLoop_spec (Z.to_nat 100000000) (Z.to_nat 100000001) 1 100000000 0)
    as (r & Hr & H2); try lia.
  - vm_compute. reflexivity.
  - vm_compute. discriminate.
  - exists r. split; [exact Hr|lia].
Qed.

(** ** The record generator *)

Section Generator.

Context {Doc : Type}.
Variable InsertMany : list Doc -> option Err.
Variable mkDoc : Z -> Doc.
Variable total batchSize : Z.
Hypothesis Hbatch : 0 < batchSize.
Hypothesis Htotal : 0 <= total.
Hypothesis Hfit : total + batchSize <= Int64.max_signed.

Lemma add_exact a b :
  0 <= a -> 0 <= b -> a + b <= Int64.max_signed -> Int64.add a b = a + b.
Proof.
  intros Ha Hb Hab. apply Int64Facts.wrap_small.
  unfold Int64.in_range, Int64.min_signed, Int64.max_signed in *. lia.
Qed.

(** The size of the batch that starts at [i], from position [j] on. *)
Lemma buildBatch_condition i j :
  0 <= i < total -> 0 <= j ->
  (j <? batchSize) && (Int64.add i j <? total) = true
  <-> j < Z.min batchSize (total - i).
Proof.
  intros Hi Hj. rewrite andb_true_iff, !Z.ltb_lt.
  destruct (Z.lt_ge_cases j batchSize) as [Hlt|Hge]; [|lia].
  rewrite add_exact by lia. lia.
Qed.

Lemma buildBatch_partial fuel i j docs :
  0 <= i < total -> 0 <= j ->
  buildBatch fuel mkDoc i j batchSize total = Some docs ->
  docs = mkDoc <$> seqZ (i + j) (Z.min batchSize (total - i) - j).
Proof.
  intros Hi. revert j docs. induction fuel as [|fuel IH]; intros j docs Hj;
    cbn [buildBatch]; [discriminate|].
  pose proof (buildBatch_condition i j Hi Hj) as Hc.
  destruct ((j <? batchSize) && (Int64.add i j <? total)).
  - assert (Hlt : j < Z.min batchSize (total - i)) by (apply Hc; reflexivity).
    rewrite !add_exact by lia.
    destruct (buildBatch fuel mkDoc i (j + 1) batchSize total) as [rest|] eqn:Hrest;
      [|discriminate].
    intros H. inversion H. subst docs.
    rewrite (IH (j + 1) rest) by (lia || exact Hrest).
    rewrite (seqZ_cons (i + j)) by lia. rewrite fmap_cons.
    f_equal. f_equal. f_equal; lia.
  - assert (Hge : ~ j < Z.min batchSize (total - i)) by (intros H; apply Hc in H; discriminate).
    intros H. inversion H. rewrite seqZ_nil by lia. reflexivity.
Qed.

Lemma buildBatch_terminates (r : nat) :
  forall fuel i j,
    0 <= i < total -> 0 <= j ->
    Z.to_nat (Z.min batchSize (total - i) - j) = r -> (r < fuel)%nat ->
    exists docs, buildBatch fuel mkDoc i j batchSize total = Some docs.
Proof.
  induction r as [|r IH]; intros fuel i j Hi Hj Hr Hfuel;
    (destruct fuel as [|fuel]; [lia|]); cbn [buildBatch];
    pose proof (buildBatch_condition i j Hi Hj) as Hc;
    destruct ((j <? batchSize) && (Int64.add i j <? total)); eauto.
  - assert (j < Z.min batchSize (total - i)) by (apply Hc; reflexivity). lia.
  - assert (Hlt : j < Z.min batchSize (total - i)) by (apply Hc; reflexivity).
    rewrite !add_exact by lia.
    destruct (IH fuel i (j + 1)) as [docs ->]; [exact Hi|lia|lia|lia|]. eauto.
Qed.

Lemma generate_partial fuel fuelIn :
  forall k i inserted result,
    atBatch mkDoc total batchSize k i inserted ->
    generate fuel fuelIn InsertMany mkDoc i total batchSize inserted = Some result ->
    match result with
    | GenDone batches =>
        concat batches = mkDoc <$> seqZ 0 total
        /\ Forall (fun docs => 0 < Z.of_nat (length docs) <= batchSize) batches
        /\ Z.of_nat (length batches) = (total + batchSize - 1) / batchSize
    | GenPanicked e batches =>
        exists k',
          0 <= k' /\ k' * batchSize < total
          /\ Z.of_nat (length batches) = k'
          /\ concat batches = mkDoc <$> seqZ 0 (k' * batchSize)
          /\ InsertMany
               (mkDoc <$> seqZ (k' * batchSize) (Z.min batchSize (total - k' * batchSize)))
             = Some e
    end.
Proof.
  induction fuel as [|fuel IH]; intros k i inserted result Hat; cbn [generate];
    [discriminate|].
  destruct Hat as (Hk & Hi & Hprev & Hlen & Hcat & Hsizes).
  destruct (Z.ltb_spec i total) as [Hlt|Hge].
  - destruct (buildBatch fuelIn mkDoc i 0 batchSize total) as [docs|] eqn:Hdocs;
      [|discriminate].
    apply buildBatch_partial in Hdocs; [|nia|lia].
    rewrite Z.add_0_r, Z.sub_0_r in Hdocs.
    destruct (InsertMany docs) as [e|] eqn:Hins.
    + intros H. inversion H. subst result. exists k.
      rewrite Z.min_l in Hcat by lia. subst i docs. tauto.
    + rewrite add_exact by nia. apply (IH (k + 1)).
      unfold atBatch. split; [lia|]. split; [lia|]. split; [right; nia|].
      split; [rewrite length_app; simpl; lia|]. split.
      * rewrite concat_app, Hcat. simpl. rewrite app_nil_r, Hdocs, <- fmap_app.
        f_equal. rewrite Z.min_l by lia.
        replace (Z.min (i + batchSize) total) with (i + Z.min batchSize (total - i)) by lia.
        rewrite seqZ_app by nia. reflexivity.
      * apply Forall_app. split; [exact Hsizes|]. constructor; [|constructor].
        subst docs. rewrite length_fmap, length_seqZ. lia.
  - intros H. inversion H. subst result.
    rewrite Z.min_r in Hcat by lia. split; [exact Hcat|]. split; [exact Hsizes|].
    rewrite Hlen. apply Z.div_unique with (r := total + batchSize - 1 - batchSize * k).
    + left. nia.
    + lia.
Qed.

Lemma generate_terminates fuel fuelIn :
  forall i inserted,
    0 <= i -> (Z.to_nat (total - i) < fuel)%nat -> (Z.to_nat batchSize < fuelIn)%nat ->
    exists result,
      generate fuel fuelIn InsertMany mkDoc i total batchSize inserted = Some result.
Proof.
  induction fuel as [|fuel IH]; intros i inserted Hi Hfuel HfuelIn; [lia|].
  cbn [generate]. destruct (Z.ltb_spec i total) as [Hlt|Hge]; [|eauto].
  destruct (buildBatch_terminates (Z.to_nat (Z.min batchSize (total - i) - 0))
              fuelIn i 0) as [docs ->]; [lia|lia|reflexivity|lia|].
  destruct (InsertMany docs); [eauto|].
  rewrite add_exact by lia. apply IH; lia.
Qed.

End Generator.



(** ** The stage checks *)

Lemma elem_scanStages line stages :
  line ∈ scanStages stages <->
  exists i m name,
    stages !! i = Some (VMap m)
    /\ index m "stage" = VString name
    /\ (name = "IXSCAN" /\ line = IndexInUse
        \/ name = "COLLSCAN" /\ (line = CollScanFound \/ line = CollScanHint)).
Proof.
  induction stages as [|stage rest IH]; cbn [scanStages].
  - rewrite elem_of_nil. split; [tauto|]. intros (i & m & name & H & _).
    rewrite lookup_nil in H. discriminate.
  - rewrite elem_of_app, IH. split.
    + intros [H|(i & m & name & Hi & Hrest)].
      * destruct (asMap stage) as [m|] eqn:Em; [|apply elem_of_nil in H; destruct H].
        apply asMap_Some in Em. subst stage.
        destruct (asString (index m "stage")) as [name|] eqn:En;
          [|apply elem_of_nil in H; destruct H].
        apply asString_Some in En. exists 0%nat, m, name.
        split; [reflexivity|]. split; [exact En|].
        destruct (String.eqb_spec name "IXSCAN") as [->|_].
        { apply list_elem_of_singleton in H. tauto. }
        destruct (String.eqb_spec name "COLLSCAN") as [->|_].
        { rewrite !elem_of_cons, elem_of_nil in H. tauto. }
        apply elem_of_nil in H. destruct H.
      * exists (S i), m, name. tauto.
    + intros ([|i] & m & name & Hi & Hname & Hline).
      * left. simpl in Hi. inversion Hi. subst stage. simpl asMap. cbv iota.
        rewrite Hname. simpl asString. cbv iota.
        destruct Hline as [[-> ->]|[-> Hl]].
        { simpl. apply list_elem_of_singleton. reflexivity. }
        { simpl. rewrite !elem_of_cons. tauto. }
      * right. exists i, m, name. tauto.
Qed.

(** X15. The index check of [read_v3] reports per entry of the explain
    result's stages array: a line (index in use, or the collection-scan
    warning with its hint) is printed exactly when some entry is a document
    whose stage is the string IXSCAN, respectively COLLSCAN; entries of any
    other shape or name print nothing, and so does an explain result whose
    stages value is absent or not an array. *)
Theorem read_v3_stage_check_reports_per_entry (r : gmap string value) :
  (IndexInUse ∈ read_v3_stageCheck r <->
   exists stages i m,
     index r "stages" = VSlice stages
     /\ stages !! i = Some (VMap m) /\ index m "stage" = VString "IXSCAN")
  /\ (CollScanFound ∈ read_v3_stageCheck r <->
      exists stages i m,
        index r "stages" = VSlice stages
        /\ stages !! i = Some (VMap m) /\ index m "stage" = VString "COLLSCAN")
  /\ (CollScanHint ∈ read_v3_stageCheck r <-> CollScanFound ∈ read_v3_stageCheck r)
  /\ ((forall stages, index r "stages" <> VSlice stages) -> read_v3_stageCheck r = []).
Proof.
  unfold read_v3_stageCheck.
  destruct (index r "stages") as [| | | | | | | |stages] eqn:E; simpl asSlice; cbv iota;
    try (split; [|split; [|split]];
         [ split; [intros H; apply elem_of_nil in H; destruct H
                  |intros (? & ? & ? & ? & _); discriminate]
         | split; [intros H; apply elem_of_nil in H; destruct H
                  |intros (? & ? & ? & ? & _); discriminate]
         | rewrite !elem_of_nil; tauto
         | intros _; reflexivity ]).
  split; [|split; [|split]].
  - rewrite elem_scanStages. split.
    + intros (i & m & name & Hi & Hn & [[-> _]|[_ [H|H]]]); try discriminate.
      exists stages, i, m. tauto.
    + intros (stages' & i & m & Hs & Hi & Hn). inversion Hs. subst stages'.
      exists i, m, "IXSCAN". tauto.
  - rewrite elem_scanStages. split.
    + intros (i & m & name & Hi & Hn & [[_ H]|[-> _]]); try discriminate.
      exists stages, i, m. tauto.
    + intros (stages' & i & m & Hs & Hi & Hn). inversion Hs. subst stages'.
      exists i, m, "COLLSCAN". tauto.
  - rewrite !elem_scanStages. split.
    + intros (i & m & name & Hi & Hn & [[_ H]|[-> _]]); try discriminate.
      exists i, m, "COLLSCAN". tauto.
    + intros (i & m & name & Hi & Hn & [[_ H]|[-> _]]); try discriminate.
      exists i, m, "COLLSCAN". tauto.
  - intros H. destruct (H stages eq_refl).
Qed.

Lemma elem_listStages line start stages :
  line ∈ listStages start stages <->
  exists i m name,
    stages !! i = Some (VMap m)
    /\ index m "stage" = VString name
    /\ line = StageNumbered (start + Z.of_nat i + 1) name.
Proof.
  revert start. induction stages as [|stage rest IH]; intros start; cbn [listStages].
  - rewrite elem_of_nil. split; [tauto|]. intros (i & m & name & H & _).
    rewrite lookup_nil in H. discriminate.
  - rewrite elem_of_app, IH. split.
    + intros [H|(i & m & name & Hi & Hn & ->)].
      * destruct (asMap stage) as [m|] eqn:Em; [|apply elem_of_nil in H; destruct H].
        apply asMap_Some in Em. subst stage.
        destruct (asString (index m "stage")) as [name|] eqn:En;
          [|apply elem_of_nil in H; destruct H].
        apply asString_Some in En. apply list_elem_of_singleton in H. subst line.
        exists 0%nat, m, name. split; [reflexivity|]. split; [exact En|].
        f_equal. lia.
      * exists (S i), m, name. split; [exact Hi|]. split; [exact Hn|]. f_equal. lia.
    + intros ([|i] & m & name & Hi & Hn & ->).
      * left. simpl in Hi. inversion Hi. subst stage. simpl asMap. cbv iota.
        rewrite Hn. simpl asString. cbv iota. apply list_elem_of_singleton.
        f_equal. lia.
      * right. exists i, m, name. split; [exact Hi|]. split; [exact Hn|]. f_equal. lia.
Qed.

(** X16. The stage list of [read_v5] numbers by position: the line
    [Stage n: name] is printed exactly when the entry at position [n - 1] of
    the stages array is a document whose stage is the string [name]. Entries
    of another shape are skipped without renumbering, so the numbers printed
    can have gaps, and no more lines are printed than there are entries. *)
Theorem read_v5_stage_numbers_are_positions (r : gmap string value) :
  (forall n name,
     StageNumbered n name ∈ read_v5_stageList r <->
     exists stages i m,
       index r "stages" = VSlice stages
       /\ stages !! i = Some (VMap m)
       /\ index m "stage" = VString name
       /\ n = Z.of_nat i + 1)
  /\ (forall stages,
        index r "stages" = VSlice stages ->
        (length (read_v5_stageList r) <= length stages)%nat).
Proof.
  unfold read_v5_stageList. split.
  - intros n name.
    destruct (index r "stages") as [| | | | | | | |stages] eqn:E; simpl asSlice; cbv iota;
      try (split; [intros H; apply elem_of_nil in H; destruct H
                  |intros (? & ? & ? & ? & _); discriminate]).
    rewrite elem_listStages. split.
    + intros (i & m & name' & Hi & Hn & H). inversion H. subst.
      exists stages, i, m. repeat split; try assumption.
    + intros (stages' & i & m & Hs & Hi & Hn & ->). inversion Hs. subst stages'.
      exists i, m, name. repeat split; try assumption.
  - intros stages ->. simpl asSlice. cbv iota. generalize 0.
    induction stages as [|stage rest IH]; intros start; cbn [listStages]; [reflexivity|].
    rewrite length_app, length_cons. specialize (IH (start + 1)).
    destruct (asMap stage) as [m|]; [destruct (asString (index m "stage"))|];
      simpl; lia.
Qed.

Example read_v5_numbers_skip :
  read_v5_stageList
    {["stages" := VSlice [VMap {["stage" := VString "IXSCAN"]};
                          VMap {["$project" := VNil]};
                          VMap {["stage" := VString "FETCH"]}]]}
  = [StageNumbered 1 "IXSCAN"; StageNumbered 3 "FETCH"].
Proof. reflexivity. Qed.

(** ** The index listing *)

Lemma listIndexNames_app l1 l2 :
  listIndexNames (l1 ++ l2) = listIndexNames l1 ++ listIndexNames l2.
Proof.
  induction l1 as [|[idx|e] l1 IH]; simpl; [reflexivity| |exact IH].
  destruct (asString (index idx "name")); simpl; rewrite IH; reflexivity.
Qed.

(** X17. The index listing of [create_index] prints the name of every index
    document that decodes and has a string name, in the cursor's order, and
    nothing else; a document that fails to decode is skipped and never stops
    the listing (unlike in the single-threaded read loops, where it panics). *)
Theorem index_listing_skips_undecodable_entries (items : list Item) :
  (forall name,
     name ∈ listIndexNames items <->
     exists idx, Decodable idx ∈ items /\ index idx "name" = VString name)
  /\ (forall before e after,
        items = before ++ Corrupt e :: after ->
        listIndexNames items = listIndexNames before ++ listIndexNames after)
  /\ (length (listIndexNames items) <= length items)%nat.
Proof.
  split; [|split].
  - intros name. induction items as [|[idx|e] rest IH]; simpl.
    + rewrite elem_of_nil. split; [tauto|]. intros (idx & H & _).
      apply elem_of_nil in H. destruct H.
    + destruct (asString (index idx "name")) as [name'|] eqn:En.
      * apply asString_Some in En. rewrite elem_of_cons, IH. split.
        { intros [->|(idx' & Hin & Hn)].
          - exists idx. split; [apply elem_of_cons; tauto|exact En].
          - exists idx'. split; [apply elem_of_cons; tauto|exact Hn]. }
        { intros (idx' & Hin & Hn). apply elem_of_cons in Hin as [Heq|Hin].
          - inversion Heq. subst idx'. rewrite En in Hn. inversion Hn. tauto.
          - right. eauto. }
      * rewrite IH. split.
        { intros (idx' & Hin & Hn). exists idx'.
          split; [apply elem_of_cons; tauto|exact Hn]. }
        { intros (idx' & Hin & Hn). apply elem_of_cons in Hin as [Heq|Hin].
          - inversion Heq. subst idx'. rewrite Hn in En. discriminate.
          - eauto. }
    + rewrite IH. split.
      * intros (idx' & Hin & Hn). exists idx'.
        split; [apply elem_of_cons; tauto|exact Hn].
      * intros (idx' & Hin & Hn). apply elem_of_cons in Hin as [Heq|Hin];
          [discriminate|eauto].
  - intros before e after ->. rewrite listIndexNames_app. reflexivity.
  - induction items as [|[idx|e] rest IH]; simpl; [lia| |lia].
    destruct (asString (index idx "name")); simpl; lia.
Qed.
